(** * HoverShell: the front-end state of the drop-down terminal

    A shallow embedding of the TypeScript sources that hold the state the
    specification talks about:

    - [Terminal]: the key handler of the terminal component
      (components/Terminal.tsx), i.e. the line editor with its history;
    - [TerminalStore]: the zustand store of terminal sessions
      (stores/terminalStore.ts);
    - [AppStore]: the zustand store of AI providers (stores/appStore.ts);
    - [App]: the hotkey callback dispatcher of the root component (App.tsx);
    - [ConfigStore]: the zustand store of the configuration and the themes
      (stores/configStore.ts);
    - [CommandPalette]: the key handler and the commands of the command
      palette (components/CommandPalette.tsx).

    JavaScript strings are sequences of UTF-16 code units, numbers that only
    ever hold integers are taken in [Z], [null]/[undefined] are [None]. *)

From Stdlib Require Import ZArith NArith QArith Lia String Ascii DecimalString.
From stdpp Require Import base decidable option numbers list.

(** ** JavaScript values used by the sources *)

Module JS.

(** A string is the list of its UTF-16 code units. *)
Abbreviation js_string := (list N).

(** String literals of the sources, written as Rocq string literals. *)
Definition js (s : string) : js_string :=
  N_of_ascii <$> list_ascii_of_string s.

(** [`${n}`] for a non-negative integer [n]. *)
Definition Number_toString (n : N) : js_string :=
  js (NilZero.string_of_uint (N.to_uint n)).

(** Truthiness of a string: only the empty string is falsy. *)
Definition truthy (s : js_string) : bool :=
  match s with [] => false | _ :: _ => true end.

(** [a || d] where [a] is a string or [undefined] and [d] a string. *)
Definition or_else (a : option js_string) (d : js_string) : js_string :=
  match a with
  | Some s => if truthy s then s else d
  | None => d
  end.

(** [a || null] where [a] is a string or [undefined]. *)
Definition or_null (a : option js_string) : option js_string :=
  match a with
  | Some s => if truthy s then Some s else None
  | None => None
  end.

(** [xs[i]]: [undefined] outside the array. *)
Definition array_get {A} (xs : list A) (i : Z) : option A :=
  if (i <? 0)%Z then None else xs !! Z.to_nat i.

(** Relative index of [String.prototype.slice]: negative arguments count
    from the end, everything is clamped into [[0, len]]. *)
Definition slice_index (len i : Z) : Z :=
  if (i <? 0)%Z then Z.max (len + i) 0 else Z.min i len.

(** [s.slice(start, stop)]; [stop = None] is the one-argument form. *)
Definition slice (s : js_string) (start : Z) (stop : option Z) : js_string :=
  let len := Z.of_nat (length s) in
  let from := slice_index len start in
  let to := match stop with Some e => slice_index len e | None => len end in
  take (Z.to_nat (to - from)) (drop (Z.to_nat from) s).

(** White space and line terminators, the code units stripped by
    [String.prototype.trim]. *)
Definition isWhiteSpace (c : N) : bool :=
  ((9 <=? c) && (c <=? 13) || (c =? 32) || (c =? 160) || (c =? 5760)
   || (8192 <=? c) && (c <=? 8202) || (c =? 8232) || (c =? 8233)
   || (c =? 8239) || (c =? 8287) || (c =? 12288) || (c =? 65279))%N.

Fixpoint trimStart (s : js_string) : js_string :=
  match s with
  | [] => []
  | c :: s' => if isWhiteSpace c then trimStart s' else s
  end.

Definition trimEnd (s : js_string) : js_string :=
  reverse (trimStart (reverse s)).

Definition trim (s : js_string) : js_string := trimEnd (trimStart s).

(** A buffer made of white space only (the empty buffer included). *)
Definition blank (s : js_string) : Prop := Forall (λ c, isWhiteSpace c = true) s.

(** The handler of an event either returns or throws a [TypeError]
    (reading a property of [undefined]). *)
Inductive outcome (A : Type) : Type :=
  | Returns (a : A)
  | TypeError.
Arguments Returns {A} a.
Arguments TypeError {A}.

(** How an awaited [invoke] of the native side ends: with a value, or
    rejected with a reason that the stores keep as their [error]. *)
Inductive invoke_result (A : Type) : Type :=
  | Resolved (a : A)
  | Rejected (reason : js_string).
Arguments Resolved {A} a.
Arguments Rejected {A} reason.

(** [s.split(sep)] for a separator of one code unit: the pieces between
    the separators, the empty string giving one empty piece. *)
Fixpoint split (sep : N) (s : js_string) : list js_string :=
  match s with
  | [] => [[]]
  | c :: s' =>
      if (c =? sep)%N then [] :: split sep s'
      else match split sep s' with
           | piece :: pieces => (c :: piece) :: pieces
           | [] => [[c]]
           end
  end.

(** [pieces.join(sep)] for a separator of one code unit. *)
Fixpoint join (sep : N) (pieces : list js_string) : js_string :=
  match pieces with
  | [] => []
  | [piece] => piece
  | piece :: pieces' => piece ++ sep :: join sep pieces'
  end.

(** [a || b] where both may be [undefined]. *)
Definition or_undefined (a b : option js_string) : option js_string :=
  match a with
  | Some s => if truthy s then Some s else b
  | None => b
  end.

(** A [number] that is an integer or [NaN]. *)
Inductive number : Type :=
  | Int (z : Z)
  | NaN.

(** [a % b] on integers: the remainder has the sign of [a], and is [NaN]
    for [b = 0]. *)
Definition js_rem (a b : Z) : number :=
  if (b =? 0)%Z then NaN else Int (Z.rem a b).

End JS.

Import JS.

(** ** components/Terminal.tsx: the line editor *)

Module Terminal.

(** The four [useState] cells of the component. [historyIndex = -1] means
    that the history is not being browsed. *)
Record EditorState := {
  input : js_string;
  cursorPosition : Z;
  commandHistory : list js_string;
  historyIndex : Z
}.

(** The fields of [React.KeyboardEvent] the handler reads. *)
Record KeyboardEvent := {
  key : js_string;
  metaKey : bool;
  ctrlKey : bool;
  altKey : bool
}.

(** What the handler does besides setting state: the lines it hands to the
    [onInput] prop, and whether it called [e.preventDefault()]. *)
Record Effects := {
  onInput_calls : list js_string;
  defaultPrevented : bool
}.

Definition prevented : Effects :=
  {| onInput_calls := []; defaultPrevented := true |}.
Definition untouched : Effects :=
  {| onInput_calls := []; defaultPrevented := false |}.

Definition initial : EditorState :=
  {| input := []; cursorPosition := 0; commandHistory := []; historyIndex := -1 |}.

Definition len (s : js_string) : Z := Z.of_nat (length s).

(** [setHistoryIndex(i); setInput(commandHistory[i]);
    setCursorPosition(commandHistory[i].length)] *)
Definition recall (st : EditorState) (i : Z) : outcome (EditorState * Effects) :=
  match array_get (commandHistory st) i with
  | Some line =>
      Returns ({| input := line; cursorPosition := len line;
                  commandHistory := commandHistory st; historyIndex := i |},
               prevented)
  | None => TypeError
  end.

Definition case_Enter (st : EditorState) : outcome (EditorState * Effects) :=
  if truthy (trim (input st)) then
    Returns ({| input := []; cursorPosition := 0;
                commandHistory := commandHistory st ++ [input st];
                historyIndex := -1 |},
             {| onInput_calls := [input st]; defaultPrevented := true |})
  else Returns (st, prevented).

Definition case_ArrowUp (st : EditorState) : outcome (EditorState * Effects) :=
  if (0 <? Z.of_nat (length (commandHistory st)))%Z then
    let newIndex :=
      if (historyIndex st =? -1)%Z
      then (Z.of_nat (length (commandHistory st)) - 1)%Z
      else Z.max 0 (historyIndex st - 1) in
    recall st newIndex
  else Returns (st, prevented).

Definition case_ArrowDown (st : EditorState) : outcome (EditorState * Effects) :=
  if negb (historyIndex st =? -1)%Z then
    let newIndex := (historyIndex st + 1)%Z in
    if (Z.of_nat (length (commandHistory st)) <=? newIndex)%Z then
      Returns ({| input := []; cursorPosition := 0;
                  commandHistory := commandHistory st; historyIndex := -1 |},
               prevented)
    else recall st newIndex
  else Returns (st, prevented).

Definition setCursorPosition (c : Z) (st : EditorState) : EditorState :=
  {| input := input st; cursorPosition := c;
     commandHistory := commandHistory st; historyIndex := historyIndex st |}.

Definition setInput_and_cursor (s : js_string) (c : Z) (st : EditorState) : EditorState :=
  {| input := s; cursorPosition := c;
     commandHistory := commandHistory st; historyIndex := historyIndex st |}.

Definition case_ArrowLeft (st : EditorState) : EditorState :=
  setCursorPosition (Z.max 0 (cursorPosition st - 1)) st.

Definition case_ArrowRight (st : EditorState) : EditorState :=
  setCursorPosition (Z.min (len (input st)) (cursorPosition st + 1)) st.

Definition case_Home (st : EditorState) : EditorState :=
  setCursorPosition 0 st.

Definition case_End (st : EditorState) : EditorState :=
  setCursorPosition (len (input st)) st.

Definition case_Backspace (st : EditorState) : EditorState :=
  if (0 <? cursorPosition st)%Z then
    let newInput :=
      slice (input st) 0 (Some (cursorPosition st - 1)%Z)
      ++ slice (input st) (cursorPosition st) None in
    setInput_and_cursor newInput (cursorPosition st - 1) st
  else st.

Definition case_Delete (st : EditorState) : EditorState :=
  if (cursorPosition st <? len (input st))%Z then
    let newInput :=
      slice (input st) 0 (Some (cursorPosition st))
      ++ slice (input st) (cursorPosition st + 1) None in
    setInput_and_cursor newInput (cursorPosition st) st
  else st.

(** [case 'c'] and [case 'v']: copy and paste are not implemented; the
    case still swallows the plain letter. *)
Definition case_clipboard (e : KeyboardEvent) (st : EditorState)
  : outcome (EditorState * Effects) :=
  if metaKey e || ctrlKey e then Returns (st, prevented)
  else Returns (st, untouched).

Definition case_default (e : KeyboardEvent) (st : EditorState)
  : outcome (EditorState * Effects) :=
  if (length (key e) =? 1)%nat && negb (metaKey e) && negb (ctrlKey e)
     && negb (altKey e) then
    let newInput :=
      slice (input st) 0 (Some (cursorPosition st))
      ++ key e ++ slice (input st) (cursorPosition st) None in
    Returns (setInput_and_cursor newInput (cursorPosition st + 1) st, prevented)
  else Returns (st, untouched).

Definition key_is (e : KeyboardEvent) (name : string) : bool :=
  bool_decide (key e = js name).

(** [handleKeyDown]: the [switch (e.key)]. *)
Definition handleKeyDown (e : KeyboardEvent) (st : EditorState)
  : outcome (EditorState * Effects) :=
  if key_is e "Enter" then case_Enter st
  else if key_is e "ArrowUp" then case_ArrowUp st
  else if key_is e "ArrowDown" then case_ArrowDown st
  else if key_is e "ArrowLeft" then Returns (case_ArrowLeft st, prevented)
  else if key_is e "ArrowRight" then Returns (case_ArrowRight st, prevented)
  else if key_is e "Home" then Returns (case_Home st, prevented)
  else if key_is e "End" then Returns (case_End st, prevented)
  else if key_is e "Backspace" then Returns (case_Backspace st, prevented)
  else if key_is e "Delete" then Returns (case_Delete st, prevented)
  else if key_is e "Tab" then Returns (st, prevented)
  else if key_is e "c" then case_clipboard e st
  else if key_is e "v" then case_clipboard e st
  else case_default e st.

(** A key press without modifiers. *)
Definition press (name : string) : KeyboardEvent :=
  {| key := js name; metaKey := false; ctrlKey := false; altKey := false |}.

(** Key presses handled one after the other, each by the handler of the
    render that follows the previous one. *)
Fixpoint handleKeys (es : list KeyboardEvent) (st : EditorState)
  : outcome EditorState :=
  match es with
  | [] => Returns st
  | e :: es' =>
      match handleKeyDown e st with
      | Returns (st', _) => handleKeys es' st'
      | TypeError => TypeError
      end
  end.

(** The invariant of the data model: the cursor is inside the buffer. *)
Definition cursor_ok (st : EditorState) : Prop :=
  (0 <= cursorPosition st <= len (input st))%Z.

(** The history index is [-1] or points at an entry of the history. *)
Definition history_ok (st : EditorState) : Prop :=
  historyIndex st = (-1)%Z
  ∨ (0 <= historyIndex st < Z.of_nat (length (commandHistory st)))%Z.


(** What [renderCursor()] puts on the input line. *)
Inductive piece : Type :=
  | Text (s : js_string)
  | Cursor.

(** [renderCursor()] *)
Definition renderCursor (st : EditorState) : list piece :=
  if (length (input st) =? 0)%nat then [Cursor]
  else [Text (slice (input st) 0 (Some (cursorPosition st)));
        Cursor;
        Text (slice (input st) (cursorPosition st) None)].

(** The text of the pieces, the cursor block left out. *)
Fixpoint text_of (ps : list piece) : js_string :=
  match ps with
  | [] => []
  | Text s :: ps' => s ++ text_of ps'
  | Cursor :: ps' => text_of ps'
  end.

(** [formatOutput(output)]: one line element per piece of
    [output.split('\n')]. *)
Definition formatOutput (output : js_string) : list js_string :=
  split 10 output.

(** The key event of typing the character [c], without modifiers. *)
Definition type_char (c : N) : KeyboardEvent :=
  {| key := [c]; metaKey := false; ctrlKey := false; altKey := false |}.

(** No history entry is white space only. *)
Definition history_not_blank (st : EditorState) : Prop :=
  Forall (λ line, ¬ blank line) (commandHistory st).

(** Key presses handled one after the other, with the lines handed to
    [onInput] on the way, in order. *)
Fixpoint submitted (es : list KeyboardEvent) (st : EditorState)
  : outcome (EditorState * list js_string) :=
  match es with
  | [] => Returns (st, [])
  | e :: es' =>
      match handleKeyDown e st with
      | Returns (st1, eff) =>
          match submitted es' st1 with
          | Returns (st2, lines) => Returns (st2, onInput_calls eff ++ lines)
          | TypeError => TypeError
          end
      | TypeError => TypeError
      end
  end.

End Terminal.

(** ** stores/terminalStore.ts: the registry of terminal sessions *)

Module TerminalStore.

Record TerminalSession := {
  id : js_string;
  title : js_string;
  working_directory : js_string;
  is_active : bool;
  output : js_string
}.

Record TerminalState := {
  terminals : list TerminalSession;
  activeTerminalId : option js_string;
  isLoading : bool;
  error : option js_string
}.

Definition initial : TerminalState :=
  {| terminals := []; activeTerminalId := None; isLoading := false; error := None |}.

(** [`terminal_${Date.now()}`] *)
Definition terminal_id (now : N) : js_string :=
  js "terminal_" ++ Number_toString now.

(** [createTerminal(title, workingDirectory)], with the value [now] that
    [Date.now()] returns. Nothing in the [try] block throws. *)
Definition createTerminal (now : N) (title workingDirectory : option js_string)
    (st : TerminalState) : TerminalState :=
  let newTerminal :=
    {| id := terminal_id now;
       title := or_else title
                  (js "Terminal "
                   ++ Number_toString (N.of_nat (length (terminals st) + 1)));
       working_directory := or_else workingDirectory (js "/");
       is_active := false;
       output := [] |} in
  {| terminals := terminals st ++ [newTerminal];
     activeTerminalId := Some (id newTerminal);
     isLoading := false;
     error := None |}.

(** [closeTerminal(id)] *)
Definition closeTerminal (x : js_string) (st : TerminalState) : TerminalState :=
  let terminals' := filter (λ t, id t ≠ x) (terminals st) in
  let activeTerminalId' :=
    if decide (activeTerminalId st = Some x)
    then or_null (id <$> terminals' !! 0%nat)
    else activeTerminalId st in
  {| terminals := terminals';
     activeTerminalId := activeTerminalId';
     isLoading := false;
     error := None |}.

Definition set_is_active (b : bool) (t : TerminalSession) : TerminalSession :=
  {| id := id t; title := title t; working_directory := working_directory t;
     is_active := b; output := output t |}.

(** [setActiveTerminal(id)] *)
Definition setActiveTerminal (x : js_string) (st : TerminalState) : TerminalState :=
  {| terminals := (λ t, set_is_active (bool_decide (id t = x)) t) <$> terminals st;
     activeTerminalId := Some x;
     isLoading := false;
     error := None |}.

Definition set_output (o : js_string) (t : TerminalSession) : TerminalSession :=
  {| id := id t; title := title t; working_directory := working_directory t;
     is_active := is_active t; output := o |}.

(** The text [sendInput] adds to the output: [`$ ${input}\n`]. *)
Definition echo (input : js_string) : js_string :=
  js "$ " ++ input ++ [10%N].

(** [t.id === terminalId ? { ...t, output: t.output + text } : t] *)
Definition feed (terminalId text : js_string) (t : TerminalSession) : TerminalSession :=
  if decide (id t = terminalId) then set_output (output t ++ text) t else t.

(** [sendInput(terminalId, input)], with the way the awaited
    [invoke('send_terminal_input', ...)] ends. *)
Definition sendInput (r : invoke_result unit) (terminalId input : js_string)
    (st : TerminalState) : TerminalState :=
  match r with
  | Resolved _ =>
      {| terminals := feed terminalId (echo input) <$> terminals st;
         activeTerminalId := activeTerminalId st;
         isLoading := false;
         error := None |}
  | Rejected reason =>
      {| terminals := terminals st;
         activeTerminalId := activeTerminalId st;
         isLoading := false;
         error := Some reason |}
  end.

(** Lines sent one after the other, every [invoke] succeeding. *)
Definition sendInputs (terminalId : js_string) (inputs : list js_string)
    (st : TerminalState) : TerminalState :=
  foldl (λ s i, sendInput (Resolved ()) terminalId i s) st inputs.

(** [terminals.find(t => t.id === terminalId)] *)
Definition find_terminal (terminalId : js_string) (ts : list TerminalSession)
  : option TerminalSession :=
  snd <$> list_find (λ t, id t = terminalId) ts.

(** [terminals.find(t => t.id === activeTerminalId)], the session that
    the components show as the active one. *)
Definition activeTerminal (st : TerminalState) : option TerminalSession :=
  match activeTerminalId st with
  | Some x => find_terminal x (terminals st)
  | None => None
  end.

(** The output of the session [terminalId] (of the first one, should the
    id occur twice). *)
Definition output_of (terminalId : js_string) (st : TerminalState)
  : option js_string :=
  output <$> find_terminal terminalId (terminals st).

(** The three operations on the registry. *)
Inductive action : Type :=
  | CreateTerminal (now : N) (title workingDirectory : option js_string)
  | CloseTerminal (x : js_string)
  | SetActiveTerminal (x : js_string).

Definition perform (st : TerminalState) (a : action) : TerminalState :=
  match a with
  | CreateTerminal now t w => createTerminal now t w st
  | CloseTerminal x => closeTerminal x st
  | SetActiveTerminal x => setActiveTerminal x st
  end.

Definition run (acts : list action) (st : TerminalState) : TerminalState :=
  foldl perform st acts.

Definition ids (st : TerminalState) : list js_string := id <$> terminals st.

(** Sessions whose [is_active] flag is set. *)
Definition flagged (st : TerminalState) : list TerminalSession :=
  filter (λ t, is_active t = true) (terminals st).

Definition at_most_one_active (st : TerminalState) : Prop :=
  length (flagged st) ≤ 1.

(** Every [createTerminal] of the sequence draws an id that no session of
    the registry has at that moment. *)
Fixpoint fresh_ids (acts : list action) (st : TerminalState) : Prop :=
  match acts with
  | [] => True
  | a :: acts' =>
      match a with
      | CreateTerminal now _ _ => terminal_id now ∉ ids st
      | _ => True
      end ∧ fresh_ids acts' (perform st a)
  end.


(** [terminals.find(t => t.is_active)] *)
Definition find_flagged (ts : list TerminalSession) : option TerminalSession :=
  snd <$> list_find (λ t, is_active t = true) ts.

(** [loadTerminals()], with the way the awaited
    [invoke('get_terminal_state')] ends. *)
Definition loadTerminals (r : invoke_result (list TerminalSession))
    (st : TerminalState) : TerminalState :=
  match r with
  | Resolved ts =>
      {| terminals := ts;
         activeTerminalId :=
           or_null (or_undefined (id <$> find_flagged ts) (id <$> ts !! 0%nat));
         isLoading := false;
         error := None |}
  | Rejected reason =>
      {| terminals := terminals st;
         activeTerminalId := activeTerminalId st;
         isLoading := false;
         error := Some reason |}
  end.

(** [clearOutput(terminalId)] *)
Definition clearOutput (terminalId : js_string) (st : TerminalState) : TerminalState :=
  {| terminals :=
       (λ t, if decide (id t = terminalId) then set_output [] t else t)
         <$> terminals st;
     activeTerminalId := activeTerminalId st;
     isLoading := false;
     error := None |}.

(** [executeCommand(terminalId, command)]: the execution itself is a TODO
    of the source, the store only notes the command in the output. *)
Definition executeCommand (terminalId command : js_string) (st : TerminalState)
  : TerminalState :=
  {| terminals :=
       feed terminalId (js "Executing: " ++ command ++ [10%N]) <$> terminals st;
     activeTerminalId := activeTerminalId st;
     isLoading := false;
     error := None |}.

(** [clearError()] *)
Definition clearError (st : TerminalState) : TerminalState :=
  {| terminals := terminals st;
     activeTerminalId := activeTerminalId st;
     isLoading := isLoading st;
     error := None |}.

(** [activeTerminalId] is [null] or the id of a session of the registry. *)
Definition active_known (st : TerminalState) : Prop :=
  ∀ x, activeTerminalId st = Some x → x ∈ ids st.

(** Every [setActiveTerminal] of the sequence names a session that the
    registry has at that moment. *)
Fixpoint known_targets (acts : list action) (st : TerminalState) : Prop :=
  match acts with
  | [] => True
  | a :: acts' =>
      match a with
      | SetActiveTerminal x => x ∈ ids st
      | _ => True
      end ∧ known_targets acts' (perform st a)
  end.

End TerminalStore.

(** ** stores/appStore.ts: the registry of AI providers *)

Module AppStore.

#[local] Unset Elimination Schemes.
(** A value of type [any] (the entries of [Provider.config]). *)
Inductive any : Type :=
  | Null
  | Boolean (b : bool)
  | Number (n : Z)
  | String (s : js_string)
  | Array (xs : list any)
  | Object (fields : list (js_string * any)).
#[local] Set Elimination Schemes.

Record Provider := {
  id : js_string;
  name : js_string;
  provider_type : js_string;
  base_url : option js_string;
  model : option js_string;
  api_key : option js_string;
  default : bool;
  enabled : bool;
  config : list (js_string * any)
}.

Record SystemInfo := {
  os : js_string;
  arch : js_string;
  version : js_string;
  memory : Z;
  cpu_count : Z
}.

Record WorkspaceInfo := {
  path : js_string;
  workspace_name : js_string;
  git_branch : option js_string;
  git_status : option js_string;
  file_count : Z;
  language : option js_string
}.

Record AppState := {
  providers : list Provider;
  defaultProvider : option js_string;
  systemInfo : option SystemInfo;
  workspaceInfo : option WorkspaceInfo;
  isLoading : bool;
  error : option js_string
}.

Definition initial : AppState :=
  {| providers := []; defaultProvider := None; systemInfo := None;
     workspaceInfo := None; isLoading := false; error := None |}.

(** [providers.find(p => p.default)] *)
Definition find_default (ps : list Provider) : option Provider :=
  snd <$> list_find (λ p, default p = true) ps.

(** [loadProviders()], with the way the awaited [invoke('get_providers')]
    ends. *)
Definition loadProviders (r : invoke_result (list Provider))
    (st : AppState) : AppState :=
  match r with
  | Resolved ps =>
      {| providers := ps;
         defaultProvider := or_null (id <$> find_default ps);
         systemInfo := systemInfo st;
         workspaceInfo := workspaceInfo st;
         isLoading := false;
         error := None |}
  | Rejected reason =>
      {| providers := providers st;
         defaultProvider := defaultProvider st;
         systemInfo := systemInfo st;
         workspaceInfo := workspaceInfo st;
         isLoading := false;
         error := Some reason |}
  end.

(** The provider list has two entries, at different positions, that are
    both marked as default. *)
Definition two_defaults (ps : list Provider) : Prop :=
  ∃ i j p q, i < j ∧ ps !! i = Some p ∧ ps !! j = Some q
             ∧ default p = true ∧ default q = true.


(** [setDefaultProvider(id)], with the way the awaited
    [invoke('set_default_provider', { id })] ends. *)
Definition setDefaultProvider (r : invoke_result unit) (x : js_string)
    (st : AppState) : AppState :=
  match r with
  | Resolved _ =>
      {| providers := providers st;
         defaultProvider := Some x;
         systemInfo := systemInfo st;
         workspaceInfo := workspaceInfo st;
         isLoading := false;
         error := None |}
  | Rejected reason =>
      {| providers := providers st;
         defaultProvider := defaultProvider st;
         systemInfo := systemInfo st;
         workspaceInfo := workspaceInfo st;
         isLoading := false;
         error := Some reason |}
  end.

(** What [addProvider] and [removeProvider] do once their own [invoke] has
    ended: [await get().loadProviders()], or the [catch] branch. *)
Definition then_reload (r : invoke_result unit)
    (reload : invoke_result (list Provider)) (st : AppState) : AppState :=
  match r with
  | Resolved _ => loadProviders reload st
  | Rejected reason =>
      {| providers := providers st;
         defaultProvider := defaultProvider st;
         systemInfo := systemInfo st;
         workspaceInfo := workspaceInfo st;
         isLoading := false;
         error := Some reason |}
  end.

(** [addProvider(providerData)]: the provider, given the id
    [`provider_${Date.now()}`], goes to the native side only; [r] is how
    [invoke('add_provider', { provider })] ends, [reload] how the
    [invoke('get_providers')] of the reload ends. *)
Definition addProvider (now : N) (providerData : Provider)
    (r : invoke_result unit) (reload : invoke_result (list Provider))
    (st : AppState) : AppState :=
  then_reload r reload st.

(** [removeProvider(id)], with [r] for [invoke('remove_provider', { id })]
    and [reload] for the reload. *)
Definition removeProvider (x : js_string)
    (r : invoke_result unit) (reload : invoke_result (list Provider))
    (st : AppState) : AppState :=
  then_reload r reload st.

(** [providers.find(p => p.id === defaultProvider)], the provider that the
    status bar names as the default one. *)
Definition defaultProviderInfo (st : AppState) : option Provider :=
  match defaultProvider st with
  | Some x => snd <$> list_find (λ p, id p = x) (providers st)
  | None => None
  end.

End AppStore.

(** ** App.tsx: visibility and the hotkey callbacks *)

Module App.

(** The state the root component owns ([useState]) or subscribes to. *)
Record AppState := {
  isVisible : bool;
  isCommandPaletteOpen : bool;
  terminalStore : TerminalStore.TerminalState
}.

(** What a render hands to the closure [handleHotkeyCallback]: the values
    of that render. The listener of 'hotkey-triggered' keeps the closure of
    the render in which it was installed. *)
Record Render := {
  seen_isVisible : bool;
  seen_terminals : list TerminalStore.TerminalSession;
  seen_activeTerminalId : option js_string
}.

Definition render (st : AppState) : Render :=
  {| seen_isVisible := isVisible st;
     seen_terminals := TerminalStore.terminals (terminalStore st);
     seen_activeTerminalId := TerminalStore.activeTerminalId (terminalStore st) |}.

Definition setIsVisible (b : bool) (st : AppState) : AppState :=
  {| isVisible := b; isCommandPaletteOpen := isCommandPaletteOpen st;
     terminalStore := terminalStore st |}.

Definition on_store (f : TerminalStore.TerminalState → TerminalStore.TerminalState)
    (st : AppState) : AppState :=
  {| isVisible := isVisible st; isCommandPaletteOpen := isCommandPaletteOpen st;
     terminalStore := f (terminalStore st) |}.

(** [terminals.findIndex(t => t.id === activeTerminalId)] *)
Definition findIndex (ts : list TerminalStore.TerminalSession)
    (a : option js_string) : Z :=
  match list_find (λ t, Some (TerminalStore.id t) = a) ts with
  | Some (i, _) => Z.of_nat i
  | None => -1
  end.

(** [if (terminals[i]) { setActiveTerminal(terminals[i].id); }] *)
Definition activate_at (ts : list TerminalStore.TerminalSession) (i : Z)
    (st : AppState) : AppState :=
  match array_get ts i with
  | Some t => on_store (TerminalStore.setActiveTerminal (TerminalStore.id t)) st
  | None => st
  end.

Definition case_close_tab (v : Render) (st : AppState) : AppState :=
  match seen_activeTerminalId v with
  | Some x => if truthy x then on_store (TerminalStore.closeTerminal x) st else st
  | None => st
  end.

(** With no terminal the index [(currentIndex + 1) % 0] is [NaN], and
    [terminals[NaN]] is [undefined]. *)
Definition case_next_tab (v : Render) (st : AppState) : AppState :=
  let terminals := seen_terminals v in
  let currentIndex := findIndex terminals (seen_activeTerminalId v) in
  if (length terminals =? 0)%nat then st
  else
    let nextIndex := ((currentIndex + 1) mod Z.of_nat (length terminals))%Z in
    activate_at terminals nextIndex st.

Definition case_prev_tab (v : Render) (st : AppState) : AppState :=
  let terminals := seen_terminals v in
  let currentIdx := findIndex terminals (seen_activeTerminalId v) in
  let prevIndex :=
    if (currentIdx =? 0)%Z then (Z.of_nat (length terminals) - 1)%Z
    else (currentIdx - 1)%Z in
  activate_at terminals prevIndex st.

Definition callback_is (callback : js_string) (name : string) : bool :=
  bool_decide (callback = js name).

(** [handleHotkeyCallback(callback)] as closed over the render [v]; [now]
    is what [Date.now()] returns should a terminal be created. *)
Definition handleHotkeyCallback (v : Render) (now : N) (callback : js_string)
    (st : AppState) : AppState :=
  if callback_is callback "toggle_window" then setIsVisible (negb (seen_isVisible v)) st
  else if callback_is callback "paste_run" then st
  else if callback_is callback "quick_hide" then setIsVisible false st
  else if callback_is callback "new_tab" then
    on_store (TerminalStore.createTerminal now None None) st
  else if callback_is callback "close_tab" then case_close_tab v st
  else if callback_is callback "next_tab" then case_next_tab v st
  else if callback_is callback "prev_tab" then case_prev_tab v st
  else st.

(** The surface is hidden when the component renders nothing. *)
Definition Hidden (st : AppState) : Prop := isVisible st = false.


(** The first render of the component: [isVisible] is the initial [false]
    and the store of terminals is the initial one (nothing fills it before
    the component mounts). *)
Definition first_render : Render :=
  {| seen_isVisible := false; seen_terminals := []; seen_activeTerminalId := None |}.

(** The listener of 'hotkey-triggered'. The effect that installs it has an
    empty dependency list: it runs once, after the first render, and the
    listener calls the [handleHotkeyCallback] of that render ever after. *)
Definition on_hotkey_triggered (now : N) (callback : js_string) (st : AppState)
  : AppState :=
  handleHotkeyCallback first_render now callback st.

Definition setIsCommandPaletteOpen (b : bool) (st : AppState) : AppState :=
  {| isVisible := isVisible st; isCommandPaletteOpen := b;
     terminalStore := terminalStore st |}.

(** The key combinations registered with [useHotkeys]. *)
Inductive hotkey : Type :=
  | Cmd_K
  | Cmd_T
  | Cmd_W
  | Cmd_Shift_BracketRight
  | Cmd_Shift_BracketLeft
  | Escape.

(** The callbacks given to [useHotkeys], as closed over the render [v]. *)
Definition handleHotkey (v : Render) (now : N) (h : hotkey) (st : AppState)
  : AppState :=
  match h with
  | Cmd_K => setIsCommandPaletteOpen true st
  | Cmd_T => on_store (TerminalStore.createTerminal now None None) st
  | Cmd_W => case_close_tab v st
  | Cmd_Shift_BracketRight => case_next_tab v st
  | Cmd_Shift_BracketLeft => case_prev_tab v st
  | Escape => setIsVisible false (setIsCommandPaletteOpen false st)
  end.

(** Calls of actions of the two other stores. *)
Inductive store_call : Type :=
  | ApplyTheme (themeName : js_string)
  | RemoveProvider (x : js_string)
  | SetDefaultProvider (x : js_string).

(** [if (args[0]) { call(args[0]); }] *)
Definition with_first_arg (call : js_string → store_call) (args : list js_string)
  : list store_call :=
  match args !! 0%nat with
  | Some a => if truthy a then [call a] else []
  | None => []
  end.

(** [handleCommandPaletteCommand(command, args)] as closed over the render
    [v]: the new state of the component and of the terminals, and the
    actions of the other stores it calls. *)
Definition handleCommandPaletteCommand (v : Render) (now : N)
    (command : js_string) (args : list js_string) (st : AppState)
  : AppState * list store_call :=
  if callback_is command "ai.chat" then (st, [])
  else if callback_is command "terminal.new" then
    (on_store (TerminalStore.createTerminal now None None) st, [])
  else if callback_is command "terminal.close" then (case_close_tab v st, [])
  else if callback_is command "config.theme" then (st, with_first_arg ApplyTheme args)
  else if callback_is command "provider.add" then (st, [])
  else if callback_is command "provider.remove" then
    (st, with_first_arg RemoveProvider args)
  else if callback_is command "provider.set-default" then
    (st, with_first_arg SetDefaultProvider args)
  else (st, []).

(** The terminal that the component renders:
    [terminals.find(t => t.id === activeTerminalId) || terminals[0]] when
    the surface is visible and there is a terminal. *)
Definition shown_terminal (st : AppState) : option TerminalStore.TerminalSession :=
  if isVisible st then
    match TerminalStore.activeTerminal (terminalStore st) with
    | Some t => Some t
    | None => TerminalStore.terminals (terminalStore st) !! 0%nat
    end
  else None.

(** Events 'hotkey-triggered' handled one after the other; each comes
    with the value of [Date.now()] at that moment. *)
Definition on_hotkeys_triggered (events : list (N * js_string)) (st : AppState)
  : AppState :=
  foldl (λ s ev, on_hotkey_triggered (fst ev) (snd ev) s) st events.

End App.

(** ** stores/configStore.ts: the configuration and the themes *)

Module ConfigStore.

(** Numbers of the configuration are decimal literals. *)
Abbreviation number := Q.

Record UIConfig := {
  position : js_string;
  height : js_string;
  blur : number;
  opacity : number;
  font : js_string;
  theme : js_string;
  font_size : number;
  line_height : number;
  padding : number;
  border_radius : number;
  shadow : bool;
  animations : bool
}.

Record HotkeyConfig := {
  toggle : js_string;
  paste_run : js_string;
  quick_hide : js_string;
  new_tab : js_string;
  close_tab : js_string;
  next_tab : js_string;
  prev_tab : js_string
}.

Record EdgeConfig := {
  reveal : bool;
  dwell_ms : number;
  scroll_resize : bool;
  sensitivity : number
}.

Record TriggersConfig := {
  hotkeys : HotkeyConfig;
  edges : EdgeConfig;
  wheel_reveal : bool;
  menu_bar_click : bool
}.

Record TerminalConfig := {
  shell : js_string;
  working_directory : option js_string;
  environment : list (js_string * js_string);
  scrollback_lines : number;
  cursor_blink : bool;
  cursor_style : js_string;
  bell_sound : bool;
  auto_close : bool
}.

Record SecurityConfig := {
  keychain_storage : bool;
  sandbox_providers : bool;
  minimal_scopes : bool;
  auto_lock : bool;
  lock_timeout : number
}.

Record Config := {
  ui : UIConfig;
  triggers : TriggersConfig;
  providers : list AppStore.any;
  terminal : TerminalConfig;
  plugins : list (js_string * AppStore.any);
  workspace_rules : list AppStore.any;
  security : SecurityConfig
}.

(** [colors] holds the entries of the object in the order of
    [Object.entries]. *)
Record ThemeInfo := {
  name : js_string;
  display_name : js_string;
  description : js_string;
  colors : list (js_string * AppStore.any)
}.

Record ConfigState := {
  config : option Config;
  themes : list ThemeInfo;
  currentTheme : js_string;
  isLoading : bool;
  error : option js_string
}.

Definition defaultConfig : Config :=
  {| ui := {| position := js "top"; height := js "45vh"; blur := 18;
              opacity := 92 # 100; font := js "JetBrainsMono Nerd Font";
              theme := js "tokyo-night"; font_size := 14; line_height := 14 # 10;
              padding := 16; border_radius := 8; shadow := true;
              animations := true |};
     triggers :=
       {| hotkeys := {| toggle := js "alt+`"; paste_run := js "cmd+enter";
                        quick_hide := js "esc"; new_tab := js "cmd+t";
                        close_tab := js "cmd+w"; next_tab := js "cmd+shift+]";
                        prev_tab := js "cmd+shift+[" |};
          edges := {| reveal := true; dwell_ms := 450; scroll_resize := true;
                      sensitivity := 1 |};
          wheel_reveal := true;
          menu_bar_click := true |};
     providers := [];
     terminal := {| shell := js "/bin/zsh"; working_directory := None;
                    environment := []; scrollback_lines := 10000;
                    cursor_blink := true; cursor_style := js "block";
                    bell_sound := true; auto_close := false |};
     plugins := [];
     workspace_rules := [];
     security := {| keychain_storage := true; sandbox_providers := true;
                    minimal_scopes := true; auto_lock := false;
                    lock_timeout := 300 |} |}.

Definition initial : ConfigState :=
  {| config := Some defaultConfig; themes := []; currentTheme := js "tokyo-night";
     isLoading := false; error := None |}.

(** The [catch] branch of the actions that only record the failure. *)
Definition failed (reason : js_string) (st : ConfigState) : ConfigState :=
  {| config := config st; themes := themes st; currentTheme := currentTheme st;
     isLoading := false; error := Some reason |}.

(** [loadConfig()], with the way the awaited [invoke('get_config')]
    ends. *)
Definition loadConfig (r : invoke_result Config) (st : ConfigState) : ConfigState :=
  match r with
  | Resolved c =>
      {| config := Some c; themes := themes st; currentTheme := theme (ui c);
         isLoading := false; error := None |}
  | Rejected reason =>
      {| config := Some defaultConfig; themes := themes st;
         currentTheme := js "tokyo-night";
         isLoading := false; error := Some reason |}
  end.

(** [saveConfig(config)], with the way [invoke('set_config', ...)] ends. *)
Definition saveConfig (r : invoke_result unit) (c : Config) (st : ConfigState)
  : ConfigState :=
  match r with
  | Resolved _ =>
      {| config := Some c; themes := themes st; currentTheme := currentTheme st;
         isLoading := false; error := None |}
  | Rejected reason => failed reason st
  end.

(** [loadThemes()], with the way [invoke('get_theme_list')] ends. *)
Definition loadThemes (r : invoke_result (list ThemeInfo)) (st : ConfigState)
  : ConfigState :=
  match r with
  | Resolved ts =>
      {| config := config st; themes := ts; currentTheme := currentTheme st;
         isLoading := false; error := None |}
  | Rejected reason => failed reason st
  end.





(** [importConfig(filePath)]: [r] is how [invoke('import_config', ...)]
    ends, [reload] how the [invoke('get_config')] of the reload ends. *)
Definition importConfig (r : invoke_result unit) (reload : invoke_result Config)
    (st : ConfigState) : ConfigState :=
  match r with
  | Resolved _ => loadConfig reload st
  | Rejected reason => failed reason st
  end.

(** The theme in use is the one the configuration names. *)
Definition theme_in_sync (st : ConfigState) : Prop :=
  ∃ c, config st = Some c ∧ currentTheme st = theme (ui c).

End ConfigStore.

(** ** components/CommandPalette.tsx: the command palette *)

Module CommandPalette.

(** A command of the palette. Its [action] is [() => onCommand(c, [])]
    for a command name [c]; the record keeps the two arguments. The icon
    is left out. *)
Record Command := {
  id : js_string;
  title : js_string;
  description : js_string;
  category : js_string;
  keywords : list js_string;
  action : js_string * list js_string
}.

Definition command (i t d c : string) (ks : list js_string) : Command :=
  {| id := js i; title := js t; description := js d; category := js c;
     keywords := ks; action := (js i, []) |}.

Definition allCommands : list Command := [
  command "terminal.new" "New Terminal"
    "Create a new terminal session"
    "Terminal" [js "new"; js "terminal"; js "create"; js "tab"];
  command "terminal.close" "Close Terminal"
    "Close the current terminal session"
    "Terminal" [js "close"; js "terminal"; js "tab"; js "exit"];
  command "terminal.clear" "Clear Terminal"
    "Clear the terminal output"
    "Terminal" [js "clear"; js "terminal"; js "clean"];
  command "ai.chat" "AI Chat"
    "Start a conversation with AI"
    "AI" [js "ai"; js "chat"; js "conversation"; js "ask"];
  command "ai.explain" "Explain Code"
    "Ask AI to explain selected code"
    "AI" [js "ai"; js "explain"; js "code"; js "help"];
  command "ai.generate" "Generate Code"
    "Ask AI to generate code"
    "AI" [js "ai"; js "generate"; js "code"; js "create"];
  command "file.list" "List Directory"
    "List files and directories"
    "File Operations" [js "list"; js "directory"; js "files"; js "ls"];
  command "file.find" "Find Files"
    "Search for files by name pattern"
    "File Operations" [js "find"; js "search"; js "files"; js "pattern"];
  command "file.search" "Search in Files"
    "Search for text content in files"
    "File Operations" [js "search"; js "text"; js "content"; js "grep"];
  command "file.copy" "Copy File/Directory"
    "Copy files or directories"
    "File Operations" [js "copy"; js "file"; js "directory"; js "cp"];
  command "file.move" "Move File/Directory"
    "Move or rename files or directories"
    "File Operations" [js "move"; js "rename"; js "file"; js "directory"; js "mv"];
  command "file.delete" "Delete File/Directory"
    "Delete files or directories"
    "File Operations" [js "delete"; js "remove"; js "file"; js "directory"; js "rm"];
  command "git.status" "Git Status"
    "Show git repository status"
    "Git" [js "git"; js "status"; js "repository"];
  command "git.branches" "Git Branches"
    "List git branches"
    "Git" [js "git"; js "branches"; js "list"];
  command "git.commit" "Git Commit"
    "Commit staged changes"
    "Git" [js "git"; js "commit"; js "changes"];
  command "git.diff" "Git Diff"
    "Show git differences"
    "Git" [js "git"; js "diff"; js "changes"; js "differences"];
  command "system.processes" "List Processes"
    "Show running processes"
    "System" [js "processes"; js "system"; js "ps"; js "top"];
  command "system.disk" "Disk Usage"
    "Show disk usage information"
    "System" [js "disk"; js "usage"; js "space"; js "df"];
  command "system.network" "Network Interfaces"
    "Show network interface information"
    "System" [js "network"; js "interfaces"; js "ifconfig"];
  command "text.grep" "Grep Text"
    "Search for patterns in text"
    "Text Processing" [js "grep"; js "search"; js "pattern"; js "text"];
  command "text.sort" "Sort Text"
    "Sort lines of text"
    "Text Processing" [js "sort"; js "text"; js "lines"];
  command "text.wc" "Word Count"
    "Count words, lines, and characters"
    "Text Processing" [js "wc"; js "count"; js "words"; js "lines"; js "characters"];
  command "network.ping" "Ping Host"
    "Ping a network host"
    "Network" [js "ping"; js "network"; js "host"; js "connectivity"];
  command "network.scan" "Port Scan"
    "Scan ports on a host"
    "Network" [js "port"; js "scan"; js "network"; js "security"];
  command "network.download" "Download File"
    "Download a file from URL"
    "Network" [js "download"; js "file"; js "url"; js "wget"; js "curl"];
  command "provider.add" "Add AI Provider"
    "Add a new AI provider"
    "AI" [js "provider"; js "add"; js "ai"; js "new"];
  command "provider.remove" "Remove AI Provider"
    "Remove an AI provider"
    "AI" [js "provider"; js "remove"; js "delete"; js "ai"];
  command "provider.set-default" "Set Default Provider"
    "Set the default AI provider"
    "AI" [js "provider"; js "default"; js "set"; js "ai"];
  command "file.open" "Open File"
    "Open a file in the editor"
    "File" [js "file"; js "open"; js "edit"];
  command "file.new" "New File"
    "Create a new file"
    "File" [js "file"; js "new"; js "create"];
  command "git.status" "Git Status"
    "Show git repository status"
    "Git" [js "git"; js "status"; js "repo"];
  command "git.commit" "Git Commit"
    "Commit changes to git"
    "Git" [js "git"; js "commit"; js "save"];
  command "config.theme" "Change Theme"
    "Change the application theme"
    "Settings" [js "theme"; js "color"; js "appearance"; js "config"];
  command "config.hotkeys" "Configure Hotkeys"
    "Configure keyboard shortcuts"
    "Settings" [js "hotkeys"; js "shortcuts"; js "keys"; js "config"]
].

(** The [useState] cells of the palette. *)
Record PaletteState := {
  query : js_string;
  selectedIndex : number;
  commands : list Command
}.

(** What the key handler does besides setting state. *)
Record Effects := {
  onCommand_calls : list (js_string * list js_string);
  onClose_calls : nat;
  defaultPrevented : bool
}.

Definition setSelectedIndex (i : number) (st : PaletteState) : PaletteState :=
  {| query := query st; selectedIndex := i; commands := commands st |}.

(** [commands[selectedIndex]] *)
Definition selected (st : PaletteState) : option Command :=
  match selectedIndex st with
  | Int i => array_get (commands st) i
  | NaN => None
  end.

(** [(prev + 1) % commands.length] *)
Definition next_index (prev : number) (n : Z) : number :=
  match prev with
  | Int i => js_rem (i + 1) n
  | NaN => NaN
  end.

(** [prev === 0 ? commands.length - 1 : prev - 1] *)
Definition prev_index (prev : number) (n : Z) : number :=
  match prev with
  | Int i => if (i =? 0)%Z then Int (n - 1) else Int (i - 1)
  | NaN => NaN
  end.

Definition key_is (k : js_string) (name : string) : bool :=
  bool_decide (k = js name).

(** [handleKeyDown] of the palette, for the key [k]. *)
Definition handleKeyDown (k : js_string) (st : PaletteState)
  : PaletteState * Effects :=
  let n := Z.of_nat (length (commands st)) in
  if key_is k "Escape" then
    (st, {| onCommand_calls := []; onClose_calls := 1; defaultPrevented := false |})
  else if key_is k "ArrowDown" then
    (setSelectedIndex (next_index (selectedIndex st) n) st,
     {| onCommand_calls := []; onClose_calls := 0; defaultPrevented := true |})
  else if key_is k "ArrowUp" then
    (setSelectedIndex (prev_index (selectedIndex st) n) st,
     {| onCommand_calls := []; onClose_calls := 0; defaultPrevented := true |})
  else if key_is k "Enter" then
    match selected st with
    | Some c =>
        (st, {| onCommand_calls := [action c]; onClose_calls := 1;
                defaultPrevented := true |})
    | None =>
        (st, {| onCommand_calls := []; onClose_calls := 0; defaultPrevented := true |})
    end
  else (st, {| onCommand_calls := []; onClose_calls := 0; defaultPrevented := false |}).

(** Keys handled one after the other; the calls of [onCommand] in order. *)
Fixpoint handleKeys (ks : list js_string) (st : PaletteState)
  : PaletteState * list (js_string * list js_string) :=
  match ks with
  | [] => (st, [])
  | k :: ks' =>
      let '(st1, eff) := handleKeyDown k st in
      let '(st2, calls) := handleKeys ks' st1 in
      (st2, onCommand_calls eff ++ calls)
  end.


End CommandPalette.

(** ** The statements of the specification the sources are compared with *)

Module Spec.

(** §4.2, [history_next] past the newest entry: browsing ends and the
    buffer holds again what it held before browsing began. *)
Definition restores_unsent_buffer (st : Terminal.EditorState) : Prop :=
  ∃ st',
    Terminal.handleKeys [Terminal.press "ArrowUp"; Terminal.press "ArrowDown"] st
      = Returns st'
    ∧ Terminal.historyIndex st' = (-1)%Z
    ∧ Terminal.input st' = Terminal.input st.

(** §4.2, [submit]: the history after submitting [line], the append being
    skipped for an empty line and for a repetition of the last entry. *)
Definition history_after_submit (history : list js_string) (line : js_string)
  : list js_string :=
  if decide (line = [] ∨ last history = Some line) then history
  else history ++ [line].

(** §4.3, [close]: the session right before the one with id [x]. *)
Definition predecessor (x : js_string) (ts : list TerminalStore.TerminalSession)
  : option TerminalStore.TerminalSession :=
  match list_find (λ t, TerminalStore.id t = x) ts with
  | Some (S i, _) => ts !! i
  | _ => None
  end.

(** §4.3, [feed_output]: what a buffer that started empty holds after the
    lines [fed], with at most [scrollback_limit] lines kept. *)
Definition scrollback (scrollback_limit : nat) (fed : list js_string) : js_string :=
  concat (TerminalStore.echo <$> drop (length fed - scrollback_limit) fed).

(** §3 and §8: no sequence of registry operations leaves two sessions with
    [is_active = true]. *)
Definition single_active_invariant : Prop :=
  ∀ acts st,
    TerminalStore.at_most_one_active st →
    TerminalStore.at_most_one_active (TerminalStore.run acts st).

(** §4.3, [create]: the new session is appended with an empty output and
    is the active one, no earlier session is active any more. The notion
    [active] of being active is left open. *)
Definition create_activates
    (active : TerminalStore.TerminalState → TerminalStore.TerminalSession → Prop)
    (now : N) (title workingDirectory : option js_string)
    (st : TerminalStore.TerminalState) : Prop :=
  let st' := TerminalStore.createTerminal now title workingDirectory st in
  ∃ new,
    TerminalStore.terminals st' = TerminalStore.terminals st ++ [new]
    ∧ TerminalStore.output new = []
    ∧ active st' new
    ∧ ∀ t, t ∈ TerminalStore.terminals st → ¬ active st' t.

(** Active by the session's own flag. *)
Definition by_flag (_ : TerminalStore.TerminalState)
    (t : TerminalStore.TerminalSession) : Prop :=
  TerminalStore.is_active t = true.

(** Active by being the session that the components look up through
    [activeTerminalId]. *)
Definition by_lookup (st : TerminalStore.TerminalState)
    (t : TerminalStore.TerminalSession) : Prop :=
  TerminalStore.activeTerminal st = Some t.

(** §6 and §8: a provider list with two defaults is refused and the
    providers loaded before stay. *)
Definition rejects (ps : list AppStore.Provider) (st : AppStore.AppState) : Prop :=
  let st' := AppStore.loadProviders (Resolved ps) st in
  AppStore.error st' ≠ None ∧ AppStore.providers st' = AppStore.providers st.

End Spec.

(** * Properties *)

(** ** Strings *)

Section Strings.
Import JS.

Lemma trimStart_blank s : blank s → trimStart s = [].
Proof. induction 1 as [|c s Hc _ IH]; simpl; [done|]. by rewrite Hc. Qed.

Lemma trimStart_nil_blank s : trimStart s = [] → blank s.
Proof.
  unfold blank. induction s as [|c s IH]; simpl; intros H; [constructor|].
  destruct (isWhiteSpace c) eqn:Hc; [|done].
  constructor; [exact Hc | exact (IH H)].
Qed.

Lemma trimStart_head s c r : trimStart s = c :: r → isWhiteSpace c = false.
Proof.
  induction s as [|d s IH]; simpl; [done|].
  destruct (isWhiteSpace d) eqn:Hd; [done|].
  intros [= -> _]. done.
Qed.

Lemma trimStart_fixed s : blank (trimStart s) → trimStart s = [].
Proof.
  destruct (trimStart s) as [|c r] eqn:E; [done|].
  intros Hb. apply trimStart_head in E.
  inversion Hb; congruence.
Qed.

Lemma trim_nil_iff s : trim s = [] ↔ blank s.
Proof.
  unfold trim, trimEnd. split.
  - intros H. apply trimStart_nil_blank, trimStart_fixed.
    apply (f_equal reverse) in H. rewrite reverse_involutive in H.
    apply trimStart_nil_blank in H. unfold blank in *.
    by rewrite Forall_reverse in H.
  - intros H. by rewrite (trimStart_blank s H).
Qed.

Lemma truthy_trim s : truthy (trim s) = true ↔ ¬ blank s.
Proof.
  rewrite <- trim_nil_iff. destruct (trim s); simpl; split; done.
Qed.

Lemma falsy_trim s : truthy (trim s) = false ↔ blank s.
Proof.
  rewrite <- trim_nil_iff. by destruct (trim s).
Qed.

Lemma slice_prefix s (c : Z) :
  (0 <= c <= Z.of_nat (length s))%Z → slice s 0 (Some c) = take (Z.to_nat c) s.
Proof.
  intros Hc. unfold slice, slice_index.
  destruct (Z.ltb_spec 0 0); [lia|]. destruct (Z.ltb_spec c 0); [lia|].
  rewrite Z.min_l, Z.min_l by lia. rewrite Z.sub_0_r. done.
Qed.

Lemma slice_suffix s (c : Z) :
  (0 <= c <= Z.of_nat (length s))%Z → slice s c None = drop (Z.to_nat c) s.
Proof.
  intros Hc. unfold slice, slice_index.
  destruct (Z.ltb_spec c 0); [lia|]. rewrite Z.min_l by lia.
  apply take_ge. rewrite length_drop. lia.
Qed.

End Strings.

(** ** The line editor *)

Section Editor.
Import Terminal.

(** *** Which case of the [switch] a key reaches *)

Lemma handleKeyDown_Enter e st :
  key e = js "Enter" → handleKeyDown e st = case_Enter st.
Proof. intros H. unfold handleKeyDown, key_is. rewrite H. reflexivity. Qed.

Lemma handleKeyDown_ArrowUp e st :
  key e = js "ArrowUp" → handleKeyDown e st = case_ArrowUp st.
Proof. intros H. unfold handleKeyDown, key_is. rewrite H. reflexivity. Qed.

Lemma handleKeyDown_ArrowDown e st :
  key e = js "ArrowDown" → handleKeyDown e st = case_ArrowDown st.
Proof. intros H. unfold handleKeyDown, key_is. rewrite H. reflexivity. Qed.

Lemma handleKeyDown_not_history e st :
  key e ≠ js "ArrowUp" → key e ≠ js "ArrowDown" →
  ∃ st' eff, handleKeyDown e st = Returns (st', eff).
Proof.
  intros Hup Hdown. unfold handleKeyDown, key_is, case_Enter, case_clipboard,
    case_default.
  rewrite (bool_decide_eq_false_2 _ Hup), (bool_decide_eq_false_2 _ Hdown).
  repeat case_match; eauto.
Qed.

(** *** The cursor stays inside the buffer, case by case *)

Lemma recall_cursor_ok st i st' eff :
  recall st i = Returns (st', eff) → cursor_ok st'.
Proof.
  unfold recall. destruct (array_get _ _) as [line|]; [|done].
  intros [= <- _]. unfold cursor_ok, len; simpl. lia.
Qed.

Lemma case_Enter_cursor_ok st st' eff :
  cursor_ok st → case_Enter st = Returns (st', eff) → cursor_ok st'.
Proof.
  intros Hok. unfold case_Enter. case_match; intros [= <- _]; [|done].
  unfold cursor_ok, len; simpl. lia.
Qed.

Lemma case_ArrowUp_cursor_ok st st' eff :
  cursor_ok st → case_ArrowUp st = Returns (st', eff) → cursor_ok st'.
Proof.
  intros Hok. unfold case_ArrowUp. case_match.
  - apply recall_cursor_ok.
  - by intros [= <- _].
Qed.

Lemma case_ArrowDown_cursor_ok st st' eff :
  cursor_ok st → case_ArrowDown st = Returns (st', eff) → cursor_ok st'.
Proof.
  intros Hok. unfold case_ArrowDown. repeat case_match.
  - intros [= <- _]. unfold cursor_ok, len; simpl. lia.
  - apply recall_cursor_ok.
  - by intros [= <- _].
Qed.

Lemma case_ArrowLeft_cursor_ok st : cursor_ok st → cursor_ok (case_ArrowLeft st).
Proof. unfold cursor_ok, case_ArrowLeft; simpl. lia. Qed.

Lemma case_ArrowRight_cursor_ok st : cursor_ok st → cursor_ok (case_ArrowRight st).
Proof. unfold cursor_ok, case_ArrowRight; simpl. lia. Qed.

Lemma case_Home_cursor_ok st : cursor_ok st → cursor_ok (case_Home st).
Proof. unfold cursor_ok, case_Home, len; simpl. lia. Qed.

Lemma case_End_cursor_ok st : cursor_ok st → cursor_ok (case_End st).
Proof. unfold cursor_ok, case_End, len; simpl. lia. Qed.

Lemma case_Backspace_cursor_ok st : cursor_ok st → cursor_ok (case_Backspace st).
Proof.
  unfold cursor_ok, case_Backspace, len. intros Hok.
  destruct (Z.ltb_spec 0 (cursorPosition st)); [|done]. simpl.
  rewrite slice_prefix, slice_suffix by lia.
  rewrite length_app, length_take, length_drop. lia.
Qed.

Lemma case_Delete_cursor_ok st : cursor_ok st → cursor_ok (case_Delete st).
Proof.
  unfold cursor_ok, case_Delete, len. intros Hok.
  destruct (Z.ltb_spec (cursorPosition st) (Z.of_nat (length (input st)))); [|done].
  simpl. rewrite slice_prefix, slice_suffix by lia.
  rewrite length_app, length_take, length_drop. lia.
Qed.

Lemma case_default_cursor_ok e st st' eff :
  cursor_ok st → case_default e st = Returns (st', eff) → cursor_ok st'.
Proof.
  unfold cursor_ok, case_default, len. intros Hok.
  case_match eqn:Hguard; intros [= <- _]; [|done]. simpl.
  repeat (apply andb_prop in Hguard as [Hguard _]).
  apply Nat.eqb_eq in Hguard.
  rewrite slice_prefix, slice_suffix by lia.
  rewrite !length_app, length_take, length_drop, Hguard. lia.
Qed.

Lemma handleKeyDown_cursor_ok e st st' eff :
  cursor_ok st → handleKeyDown e st = Returns (st', eff) → cursor_ok st'.
Proof.
  intros Hok. unfold handleKeyDown.
  repeat (destruct (key_is e _));
    eauto using case_Enter_cursor_ok, case_ArrowUp_cursor_ok,
      case_ArrowDown_cursor_ok, case_default_cursor_ok;
    try (intros [= <- _];
         auto using case_ArrowLeft_cursor_ok, case_ArrowRight_cursor_ok,
           case_Home_cursor_ok, case_End_cursor_ok, case_Backspace_cursor_ok,
           case_Delete_cursor_ok).
  all: unfold case_clipboard; case_match; by intros [= <- _].
Qed.

(** *** The handler never throws on the states it produces *)

Lemma recall_in_range st i :
  (0 <= i < Z.of_nat (length (commandHistory st)))%Z →
  ∃ st' eff, recall st i = Returns (st', eff) ∧ history_ok st'.
Proof.
  intros Hi. unfold recall, array_get.
  destruct (Z.ltb_spec i 0); [lia|].
  destruct (lookup_lt_is_Some_2 (commandHistory st) (Z.to_nat i)) as [line ->]; [lia|].
  do 2 eexists. split; [reflexivity|]. right; simpl. lia.
Qed.

Lemma case_ArrowUp_returns st :
  history_ok st →
  ∃ st' eff, case_ArrowUp st = Returns (st', eff) ∧ history_ok st'.
Proof.
  intros Hok. unfold case_ArrowUp.
  destruct (Z.ltb_spec 0 (Z.of_nat (length (commandHistory st)))); [|by eauto].
  apply recall_in_range.
  destruct (Z.eqb_spec (historyIndex st) (-1)); [lia|].
  destruct Hok; lia.
Qed.

Lemma case_ArrowDown_returns st :
  history_ok st →
  ∃ st' eff, case_ArrowDown st = Returns (st', eff) ∧ history_ok st'.
Proof.
  intros Hok. unfold case_ArrowDown.
  destruct (Z.eqb_spec (historyIndex st) (-1)); simpl; [by eauto|].
  destruct (Z.leb_spec (Z.of_nat (length (commandHistory st))) (historyIndex st + 1)).
  - do 2 eexists. split; [reflexivity|]. by left.
  - apply recall_in_range. destruct Hok; lia.
Qed.

Lemma setCursorPosition_history_ok c st :
  history_ok st → history_ok (setCursorPosition c st).
Proof. done. Qed.

Lemma setInput_and_cursor_history_ok s c st :
  history_ok st → history_ok (setInput_and_cursor s c st).
Proof. done. Qed.

(** From a state whose history index is in range, every key is handled
    without a [TypeError], and the index is in range again. *)
Lemma handleKeyDown_returns e st :
  history_ok st →
  ∃ st' eff, handleKeyDown e st = Returns (st', eff) ∧ history_ok st'.
Proof.
  intros Hok. unfold handleKeyDown.
  repeat (destruct (key_is e _));
    auto using case_ArrowUp_returns, case_ArrowDown_returns.
  - unfold case_Enter. case_match; [|by eauto].
    do 2 eexists. split; [reflexivity|]. by left.
  - do 2 eexists. split; [reflexivity|]. by apply setCursorPosition_history_ok.
  - do 2 eexists. split; [reflexivity|]. by apply setCursorPosition_history_ok.
  - do 2 eexists. split; [reflexivity|]. by apply setCursorPosition_history_ok.
  - do 2 eexists. split; [reflexivity|]. by apply setCursorPosition_history_ok.
  - do 2 eexists. split; [reflexivity|]. unfold case_Backspace.
    case_match; [by apply setInput_and_cursor_history_ok|done].
  - do 2 eexists. split; [reflexivity|]. unfold case_Delete.
    case_match; [by apply setInput_and_cursor_history_ok|done].
  - by eauto.
  - unfold case_clipboard. case_match; by eauto.
  - unfold case_clipboard. case_match; by eauto.
  - unfold case_default. case_match; [|by eauto].
    do 2 eexists. split; [reflexivity|]. by apply setInput_and_cursor_history_ok.
Qed.

(** Any sequence of keys typed into the fresh editor is handled to the
    end, and the cursor is inside the buffer afterwards. *)
Lemma handleKeys_returns es st :
  history_ok st → cursor_ok st →
  ∃ st', handleKeys es st = Returns st' ∧ history_ok st' ∧ cursor_ok st'.
Proof.
  revert st. induction es as [|e es IH]; intros st Hh Hc; simpl; [by eauto|].
  destruct (handleKeyDown_returns e st Hh) as (st1 & eff & Hret & Hh1).
  rewrite Hret. apply IH; [done|]. by eapply handleKeyDown_cursor_ok.
Qed.

(** *** Enter *)

Lemma case_Enter_blank st : blank (input st) → case_Enter st = Returns (st, prevented).
Proof. intros Hb. unfold case_Enter. by rewrite (proj2 (falsy_trim _) Hb). Qed.

Lemma case_Enter_not_blank st :
  ¬ blank (input st) →
  case_Enter st =
    Returns ({| input := []; cursorPosition := 0;
                commandHistory := commandHistory st ++ [input st];
                historyIndex := -1 |},
             {| onInput_calls := [input st]; defaultPrevented := true |}).
Proof. intros Hb. unfold case_Enter. by rewrite (proj2 (truthy_trim _) Hb). Qed.

(** *** History *)

Lemma array_get_last {A} (xs : list A) :
  xs ≠ [] → array_get xs (Z.of_nat (length xs) - 1) = last xs.
Proof.
  intros Hne. unfold array_get.
  destruct xs as [|x xs _] using rev_ind; [done|].
  rewrite length_app; simpl.
  destruct (Z.ltb_spec (Z.of_nat (length xs + 1) - 1) 0); [lia|].
  replace (Z.to_nat (Z.of_nat (length xs + 1) - 1)) with (length xs) by lia.
  rewrite last_snoc. by rewrite list_lookup_middle.
Qed.

Lemma case_ArrowUp_enter st :
  commandHistory st ≠ [] → historyIndex st = (-1)%Z →
  ∃ line, last (commandHistory st) = Some line ∧
    case_ArrowUp st =
      Returns ({| input := line; cursorPosition := len line;
                  commandHistory := commandHistory st;
                  historyIndex := Z.of_nat (length (commandHistory st)) - 1 |},
               prevented).
Proof.
  intros Hne Hidx. unfold case_ArrowUp, recall. rewrite Hidx. simpl.
  destruct (Z.ltb_spec 0 (Z.of_nat (length (commandHistory st)))) as [_|Hlen].
  - rewrite array_get_last by done.
    destruct (last (commandHistory st)) as [line|] eqn:Hlast; [eauto|].
    apply last_None in Hlast. done.
  - destruct (commandHistory st); [done|simpl in Hlen; lia].
Qed.

Lemma case_ArrowDown_newest st :
  historyIndex st = (Z.of_nat (length (commandHistory st)) - 1)%Z →
  commandHistory st ≠ [] →
  case_ArrowDown st =
    Returns ({| input := []; cursorPosition := 0;
                commandHistory := commandHistory st; historyIndex := -1 |},
             prevented).
Proof.
  intros Hidx Hne. unfold case_ArrowDown. rewrite Hidx.
  assert (0 < length (commandHistory st)) by (destruct (commandHistory st); [done|simpl; lia]).
  destruct (Z.eqb_spec (Z.of_nat (length (commandHistory st)) - 1) (-1)); [lia|]. simpl.
  destruct (Z.leb_spec (Z.of_nat (length (commandHistory st)))
              (Z.of_nat (length (commandHistory st)) - 1 + 1)); [done|lia].
Qed.

End Editor.

Section EditorClaims.
Import Terminal.

(** C3 (as stated, refuted). With [abc] typed but not sent and [ls -la] in
    the history, ArrowUp followed by ArrowDown does not bring [abc] back:
    the handler keeps no copy of the unsent buffer. *)
Lemma unsent_buffer_is_lost :
  let st := {| input := js "abc"; cursorPosition := 3;
               commandHistory := [js "ls -la"]; historyIndex := -1 |} in
  handleKeys [press "ArrowUp"; press "ArrowDown"] st =
    Returns {| input := []; cursorPosition := 0;
               commandHistory := [js "ls -la"]; historyIndex := -1 |}
  ∧ ¬ Spec.restores_unsent_buffer st.
Proof.
  intros st. split; [reflexivity|].
  intros (st' & Hrun & _ & Hinput).
  vm_compute in Hrun. injection Hrun as <-.
  vm_compute in Hinput. discriminate Hinput.
Qed.

(** C3 (amended). For every editor state that is not browsing and has a
    non-empty history, ArrowUp shows the newest history entry with the
    cursor at its end, and a following ArrowDown, which walks past the
    newest entry, leaves browsing with an empty buffer and the cursor at 0,
    whatever the buffer held before; the history itself is unchanged. *)
Theorem history_excursion_empties_buffer up down st :
  key up = js "ArrowUp" → key down = js "ArrowDown" →
  commandHistory st ≠ [] → historyIndex st = (-1)%Z →
  (∃ line, last (commandHistory st) = Some line
     ∧ handleKeys [up] st =
         Returns {| input := line; cursorPosition := len line;
                    commandHistory := commandHistory st;
                    historyIndex := Z.of_nat (length (commandHistory st)) - 1 |})
  ∧ handleKeys [up; down] st =
      Returns {| input := []; cursorPosition := 0;
                 commandHistory := commandHistory st; historyIndex := -1 |}.
Proof.
  intros Hup Hdown Hne Hidx.
  destruct (case_ArrowUp_enter st Hne Hidx) as (line & Hlast & Hcase).
  simpl. rewrite (handleKeyDown_ArrowUp _ _ Hup), Hcase. split; [by eauto|].
  rewrite (handleKeyDown_ArrowDown _ _ Hdown).
  by rewrite case_ArrowDown_newest.
Qed.

Lemma history_excursion_empties_buffer_witness :
  let st := {| input := js "abc"; cursorPosition := 3;
               commandHistory := [js "ls -la"]; historyIndex := -1 |} in
  handleKeys [press "ArrowUp"; press "ArrowDown"] st =
    Returns {| input := []; cursorPosition := 0;
               commandHistory := [js "ls -la"]; historyIndex := -1 |}.
Proof.
  intros st.
  apply (history_excursion_empties_buffer (press "ArrowUp") (press "ArrowDown") st);
    [reflexivity | reflexivity | discriminate | reflexivity].
Defined.

(** C6 (as stated, refuted). Submitting [ls] when [ls] is already the last
    history entry appends it a second time. *)
Lemma repeated_line_is_appended :
  let st := {| input := js "ls"; cursorPosition := 2;
               commandHistory := [js "ls"]; historyIndex := -1 |} in
  ∃ st' eff,
    handleKeyDown (press "Enter") st = Returns (st', eff)
    ∧ commandHistory st' = [js "ls"; js "ls"]
    ∧ Spec.history_after_submit (commandHistory st) (input st) = [js "ls"].
Proof. intros st. do 2 eexists. split; [reflexivity|]. split; reflexivity. Qed.

(** C6 (amended). For every editor state whose buffer holds a character
    that is not white space, Enter hands the buffer content to [onInput],
    appends it to the history (also when it repeats the last entry), clears
    the buffer, puts the cursor at 0 and leaves history browsing; when the
    buffer is empty or white space only, nothing is handed over and the
    state, history included, stays as it is. *)
Theorem Enter_submits_and_appends e st :
  key e = js "Enter" →
  (¬ blank (input st) →
     handleKeyDown e st =
       Returns ({| input := []; cursorPosition := 0;
                   commandHistory := commandHistory st ++ [input st];
                   historyIndex := -1 |},
                {| onInput_calls := [input st]; defaultPrevented := true |}))
  ∧ (blank (input st) →
     ∃ eff, handleKeyDown e st = Returns (st, eff) ∧ onInput_calls eff = []).
Proof.
  intros He. rewrite (handleKeyDown_Enter _ _ He). split.
  - apply case_Enter_not_blank.
  - intros Hb. rewrite (case_Enter_blank _ Hb). by eexists.
Qed.

Lemma Enter_submits_and_appends_witness :
  let st := {| input := js "ls"; cursorPosition := 2;
               commandHistory := [js "ls"]; historyIndex := -1 |} in
  handleKeyDown (press "Enter") st =
    Returns ({| input := []; cursorPosition := 0;
                commandHistory := [js "ls"; js "ls"]; historyIndex := -1 |},
             {| onInput_calls := [js "ls"]; defaultPrevented := true |}).
Proof.
  intros st.
  apply (proj1 (Enter_submits_and_appends (press "Enter") st eq_refl)).
  intros Hb. inversion Hb as [|c s Hc _]. vm_compute in Hc. discriminate Hc.
Defined.

(** C7. In every editor state with [0 <= cursor <= len(buffer)], whatever
    key is handled, the state the handler returns satisfies
    [0 <= cursor <= len(buffer)] again. The handler does return such a
    state for every key other than the two history keys, in particular for
    character insertion, Backspace, Delete, ArrowLeft, ArrowRight, Home and
    End, and for the history keys too when the history index is in
    range. *)
Theorem cursor_stays_in_buffer e st :
  cursor_ok st →
  (∀ st' eff, handleKeyDown e st = Returns (st', eff) → cursor_ok st')
  ∧ ((key e ≠ js "ArrowUp" ∧ key e ≠ js "ArrowDown") ∨ history_ok st →
     ∃ st' eff, handleKeyDown e st = Returns (st', eff) ∧ cursor_ok st').
Proof.
  intros Hok. split.
  - intros st' eff. by apply handleKeyDown_cursor_ok.
  - intros Hcase.
    assert (∃ st' eff, handleKeyDown e st = Returns (st', eff))
      as (st' & eff & Hret).
    { destruct Hcase as [[Hup Hdown]|Hh].
      - by apply handleKeyDown_not_history.
      - destruct (handleKeyDown_returns e st Hh) as (st' & eff & Hret & _). eauto. }
    exists st', eff. split; [done|]. by eapply handleKeyDown_cursor_ok.
Qed.

Lemma cursor_stays_in_buffer_witness :
  let st := {| input := js "abc"; cursorPosition := 2;
               commandHistory := []; historyIndex := -1 |} in
  cursor_ok st ∧
  ∃ st' eff, handleKeyDown (press "Backspace") st = Returns (st', eff) ∧ cursor_ok st'.
Proof.
  intros st.
  assert (Hok : cursor_ok st) by (unfold cursor_ok, len; simpl; lia).
  split; [exact Hok|].
  apply (proj2 (cursor_stays_in_buffer (press "Backspace") st Hok)).
  left. split; vm_compute; discriminate.
Defined.

(** C10. For every buffer made of white space only, the empty buffer
    included, Enter changes nothing: no line is handed to [onInput], and
    buffer, cursor, history and history index keep their values. *)
Theorem Enter_on_blank_buffer_is_noop e st :
  key e = js "Enter" → blank (input st) →
  handleKeyDown e st =
    Returns (st, {| onInput_calls := []; defaultPrevented := true |}).
Proof.
  intros He Hb. rewrite (handleKeyDown_Enter _ _ He). by apply case_Enter_blank.
Qed.

Lemma Enter_on_blank_buffer_is_noop_witness :
  let st := {| input := js "  " ++ [9%N]; cursorPosition := 1;
               commandHistory := [js "ls"]; historyIndex := -1 |} in
  blank (input st) ∧
  handleKeyDown (press "Enter") st =
    Returns (st, {| onInput_calls := []; defaultPrevented := true |}).
Proof.
  intros st.
  assert (Hb : blank (input st)) by (repeat constructor).
  split; [exact Hb|].
  apply (Enter_on_blank_buffer_is_noop (press "Enter") st eq_refl Hb).
Defined.

End EditorClaims.

(** ** The registry of terminal sessions *)

Section Registry.
Import TerminalStore.

Lemma ids_createTerminal now title wd st :
  ids (createTerminal now title wd st) = ids st ++ [terminal_id now].
Proof. unfold ids; simpl. by rewrite fmap_app. Qed.

Lemma flagged_createTerminal now title wd st :
  flagged (createTerminal now title wd st) = flagged st.
Proof.
  unfold flagged; simpl. rewrite filter_app.
  rewrite filter_cons_False by (simpl; discriminate).
  by rewrite filter_nil, app_nil_r.
Qed.

Lemma ids_closeTerminal_NoDup x st :
  NoDup (ids st) → NoDup (ids (closeTerminal x st)).
Proof.
  unfold ids; simpl. intros Hnd. eapply sublist_NoDup; [exact Hnd|].
  apply fmap_sublist, sublist_filter.
Qed.

Lemma flagged_closeTerminal x st :
  length (flagged (closeTerminal x st)) ≤ length (flagged st).
Proof.
  unfold flagged; simpl.
  induction (terminals st) as [|t ts IH]; [done|].
  rewrite !filter_cons. repeat case_decide; rewrite ?filter_cons;
    repeat case_decide; simpl; try done; lia.
Qed.

Lemma ids_setActiveTerminal x st : ids (setActiveTerminal x st) = ids st.
Proof.
  unfold ids; simpl. rewrite <- list_fmap_compose. by apply list_fmap_ext.
Qed.

(** Marking the sessions with id [x] marks nobody when no session has
    that id, and one session at most when ids do not repeat. *)
Lemma mark_absent x (ts : list TerminalSession) :
  x ∉ id <$> ts →
  filter (λ t, is_active t = true)
    ((λ t, set_is_active (bool_decide (id t = x)) t) <$> ts) = [].
Proof.
  induction ts as [|t ts IH]; [done|]. csimpl.
  rewrite not_elem_of_cons. intros [Hne Hrest].
  rewrite filter_cons_False; [by apply IH|].
  simpl. rewrite bool_decide_eq_false_2 by done. discriminate.
Qed.

Lemma mark_at_most_one x (ts : list TerminalSession) :
  NoDup (id <$> ts) →
  length (filter (λ t, is_active t = true)
            ((λ t, set_is_active (bool_decide (id t = x)) t) <$> ts)) ≤ 1.
Proof.
  induction ts as [|t ts IH]; csimpl; [lia|].
  rewrite NoDup_cons. intros [Hnotin Hnd].
  destruct (decide (id t = x)) as [Heq|Hne].
  - rewrite filter_cons_True by (simpl; by rewrite bool_decide_eq_true_2).
    rewrite mark_absent by congruence. simpl. lia.
  - rewrite filter_cons_False; [by apply IH|].
    simpl. rewrite bool_decide_eq_false_2 by done. discriminate.
Qed.

Lemma flagged_setActiveTerminal x st :
  NoDup (ids st) → at_most_one_active (setActiveTerminal x st).
Proof. apply mark_at_most_one. Qed.

(** Distinct ids together with a single flagged session is what every
    operation passes on. *)
Lemma perform_keeps_single_active a st :
  NoDup (ids st) → at_most_one_active st →
  match a with
  | CreateTerminal now _ _ => terminal_id now ∉ ids st
  | _ => True
  end →
  NoDup (ids (perform st a)) ∧ at_most_one_active (perform st a).
Proof.
  intros Hnd Hone Hfresh. destruct a as [now t w|x|x]; simpl.
  - split.
    + rewrite ids_createTerminal. apply NoDup_app. split_and!; [done| |apply NoDup_singleton].
      intros y Hy ->%list_elem_of_singleton. done.
    + unfold at_most_one_active. by rewrite flagged_createTerminal.
  - split; [by apply ids_closeTerminal_NoDup|].
    unfold at_most_one_active in *. pose proof (flagged_closeTerminal x st). lia.
  - split; [by rewrite ids_setActiveTerminal|by apply flagged_setActiveTerminal].
Qed.

(** The first session that survives the filter is the first of the list
    that passes the test. *)
Lemma filter_lookup_0 {A} (P : A → Prop) `{!∀ x, Decision (P x)} (l : list A) :
  filter P l !! 0 = snd <$> list_find P l.
Proof.
  induction l as [|a l IH]; [done|].
  rewrite filter_cons. csimpl. case_decide; [done|].
  rewrite IH. by destruct (list_find P l) as [[]|].
Qed.

Lemma filter_all_out {A} (P : A → Prop) `{!∀ x, Decision (P x)} (l : list A) :
  Forall (λ a, ¬ P a) l → filter P l = [].
Proof.
  induction 1 as [|a l Ha _ IH]; [done|]. by rewrite filter_cons_False.
Qed.

Lemma id_feed terminalId text t : id (feed terminalId text t) = id t.
Proof. unfold feed. by case_decide. Qed.

Lemma feed_feed terminalId a b t :
  feed terminalId b (feed terminalId a t) = feed terminalId (a ++ b) t.
Proof.
  unfold feed. destruct (decide (id t = terminalId)) as [Heq|Hne]; simpl.
  - rewrite decide_True by done. unfold set_output; simpl. by rewrite app_assoc.
  - by rewrite decide_False.
Qed.

Lemma feed_nil terminalId t : feed terminalId [] t = t.
Proof.
  unfold feed. case_decide; [|done]. destruct t; unfold set_output; simpl.
  by rewrite app_nil_r.
Qed.

Lemma terminals_sendInputs terminalId inputs st :
  terminals (sendInputs terminalId inputs st)
  = feed terminalId (concat (echo <$> inputs)) <$> terminals st.
Proof.
  unfold sendInputs. revert st. induction inputs as [|i inputs IH]; intros st.
  - simpl. rewrite <- (list_fmap_id (terminals st)) at 1.
    apply list_fmap_ext. intros ? t _. by rewrite feed_nil.
  - simpl. rewrite IH; simpl. rewrite <- list_fmap_compose.
    apply list_fmap_ext. intros ? t _. simpl. apply (feed_feed terminalId (echo i)).
Qed.

Lemma find_terminal_fmap terminalId (f : TerminalSession → TerminalSession) ts :
  (∀ t, id (f t) = id t) →
  find_terminal terminalId (f <$> ts) = f <$> find_terminal terminalId ts.
Proof.
  intros Hid. unfold find_terminal.
  induction ts as [|t ts IH]; [done|]. csimpl. rewrite Hid.
  case_decide; [done|].
  rewrite <- !option_fmap_compose in *.
  destruct (list_find _ (f <$> ts)) as [[]|], (list_find _ ts) as [[]|];
    simpl in *; congruence.
Qed.

Lemma find_terminal_snoc_fresh x ts new :
  x ∉ id <$> ts → id new = x → find_terminal x (ts ++ [new]) = Some new.
Proof.
  intros Hfresh Hid. unfold find_terminal.
  induction ts as [|t ts IH]; csimpl.
  - by rewrite decide_True.
  - csimpl in Hfresh. apply not_elem_of_cons in Hfresh as [Hne Hrest].
    rewrite decide_False by done.
    specialize (IH Hrest). destruct (list_find _ (ts ++ [new])) as [[]|]; simpl in *; congruence.
Qed.

End Registry.

Section RegistryClaims.
Import TerminalStore.

(** C1 (as stated, refuted). Two terminals created within the same
    millisecond get the same id; activating that id then sets the
    [is_active] flag of both, starting from the empty registry. *)
Lemma same_millisecond_breaks_single_active :
  let acts := [CreateTerminal 5 None None; CreateTerminal 5 None None;
               SetActiveTerminal (terminal_id 5)] in
  at_most_one_active initial
  ∧ length (flagged (run acts initial)) = 2
  ∧ ¬ Spec.single_active_invariant.
Proof.
  intros acts.
  assert (Hinit : at_most_one_active initial) by (unfold at_most_one_active; simpl; lia).
  assert (Hlen : length (flagged (run acts initial)) = 2) by reflexivity.
  split_and!; [done..|].
  intros Hinv. specialize (Hinv acts initial Hinit).
  unfold at_most_one_active in Hinv. lia.
Qed.

(** C1 (amended). For every registry whose session ids are pairwise
    distinct and in which at most one session has [is_active = true], and
    every sequence of createTerminal, closeTerminal and setActiveTerminal
    in which each createTerminal draws an id that no session of the
    registry has at that moment, the resulting registry again has pairwise
    distinct ids and at most one session with [is_active = true]. *)
Theorem run_keeps_single_active acts st :
  NoDup (ids st) → at_most_one_active st → fresh_ids acts st →
  NoDup (ids (run acts st)) ∧ at_most_one_active (run acts st).
Proof.
  unfold run. revert st. induction acts as [|a acts IH]; intros st Hnd Hone Hfresh.
  - done.
  - destruct Hfresh as [Ha Hrest]. simpl.
    destruct (perform_keeps_single_active a st Hnd Hone) as [Hnd' Hone'].
    { by destruct a. }
    by apply IH.
Qed.

Lemma run_keeps_single_active_witness :
  let acts := [CreateTerminal 5 None None; CreateTerminal 6 None None;
               SetActiveTerminal (terminal_id 5); CloseTerminal (terminal_id 5);
               SetActiveTerminal (terminal_id 6)] in
  NoDup (ids (run acts initial)) ∧ at_most_one_active (run acts initial).
Proof.
  intros acts. apply (run_keeps_single_active acts initial).
  - apply NoDup_nil_2.
  - unfold at_most_one_active; simpl; lia.
  - simpl. split_and!; try exact I.
    + apply not_elem_of_nil.
    + intros Hin. apply list_elem_of_singleton in Hin. vm_compute in Hin. discriminate Hin.
Defined.

(** C2 (as stated, refuted). Of the sessions a, b, c with c active, closing
    c makes a the active one, not its predecessor b; no remaining session
    gets the [is_active] flag either. *)
Lemma close_skips_predecessor :
  let a := {| id := js "a"; title := js "A"; working_directory := js "/";
              is_active := false; output := [] |} in
  let b := {| id := js "b"; title := js "B"; working_directory := js "/";
              is_active := false; output := [] |} in
  let c := {| id := js "c"; title := js "C"; working_directory := js "/";
              is_active := true; output := [] |} in
  let st := {| terminals := [a; b; c]; activeTerminalId := Some (js "c");
               isLoading := false; error := None |} in
  Spec.predecessor (js "c") (terminals st) = Some b
  ∧ activeTerminal (closeTerminal (js "c") st) = Some a
  ∧ activeTerminal (closeTerminal (js "c") st) ≠ Some b
  ∧ flagged (closeTerminal (js "c") st) = [].
Proof.
  intros a b c st. split_and!; try reflexivity.
  vm_compute. discriminate.
Qed.

(** C2 (amended). For every registry whose [activeTerminalId] is [x],
    closing [x] removes the sessions with id [x] and makes the first
    remaining session in registry order the active one, that is, the first
    session of the registry whose id is not [x] (an empty id of that
    session counts as none); if no session remains, no session is active.
    The [is_active] flags of the remaining sessions are not touched. *)
Theorem close_active_moves_to_first x st :
  activeTerminalId st = Some x →
  terminals (closeTerminal x st) = filter (λ t, id t ≠ x) (terminals st)
  ∧ activeTerminalId (closeTerminal x st)
    = or_null (id <$> (snd <$> list_find (λ t, id t ≠ x) (terminals st)))
  ∧ (terminals (closeTerminal x st) = [] → activeTerminalId (closeTerminal x st) = None).
Proof.
  intros Hact. unfold closeTerminal; simpl. rewrite Hact.
  rewrite decide_True by done. rewrite filter_lookup_0.
  split_and!; [done..|].
  intros Hnil. rewrite <- filter_lookup_0, Hnil. done.
Qed.

Lemma close_active_moves_to_first_witness :
  let a := {| id := js "a"; title := js "A"; working_directory := js "/";
              is_active := false; output := [] |} in
  let b := {| id := js "b"; title := js "B"; working_directory := js "/";
              is_active := false; output := [] |} in
  let c := {| id := js "c"; title := js "C"; working_directory := js "/";
              is_active := true; output := [] |} in
  let st := {| terminals := [a; b; c]; activeTerminalId := Some (js "c");
               isLoading := false; error := None |} in
  activeTerminalId (closeTerminal (js "c") st)
  = or_null (id <$> (snd <$> list_find (λ t, id t ≠ js "c") (terminals st))).
Proof.
  intros a b c st.
  apply (close_active_moves_to_first (js "c") st eq_refl).
Defined.

(** C4 (as stated, refuted). With a scrollback limit of 2, three lines fed
    to a session with an empty output leave all three lines in the
    buffer, not the two most recent ones. *)
Lemma third_line_evicts_nothing :
  let t := {| id := js "t"; title := js "T"; working_directory := js "/";
              is_active := true; output := [] |} in
  let st := {| terminals := [t]; activeTerminalId := Some (js "t");
               isLoading := false; error := None |} in
  let fed := [js "a"; js "b"; js "c"] in
  output_of (js "t") (sendInputs (js "t") fed st)
    = Some (js "$ a" ++ [10%N] ++ js "$ b" ++ [10%N] ++ js "$ c" ++ [10%N])
  ∧ Spec.scrollback 2 fed = js "$ b" ++ [10%N] ++ js "$ c" ++ [10%N]
  ∧ output_of (js "t") (sendInputs (js "t") fed st) ≠ Some (Spec.scrollback 2 fed).
Proof.
  intros t st fed. split_and!; try reflexivity.
  vm_compute. discriminate.
Qed.

(** C4 (amended). For every session and every list of [scrollback_limit + k]
    lines fed to it, the output buffer afterwards holds what it held
    before, followed by the [k] oldest of the lines fed, followed by the
    [scrollback_limit] most recent ones, all in arrival order: nothing is
    evicted. *)
Theorem feeding_evicts_nothing terminalId scrollback_limit k inputs st t :
  length inputs = scrollback_limit + k →
  find_terminal terminalId (terminals st) = Some t →
  output_of terminalId (sendInputs terminalId inputs st)
  = Some (output t ++ concat (echo <$> take k inputs)
            ++ Spec.scrollback scrollback_limit inputs).
Proof.
  intros Hlen Hfind. unfold output_of, Spec.scrollback.
  rewrite terminals_sendInputs.
  rewrite find_terminal_fmap by (intros; apply id_feed).
  rewrite Hfind; simpl. f_equal.
  assert (Hid : id t = terminalId).
  { unfold find_terminal in Hfind.
    destruct (list_find _ _) as [[i u]|] eqn:Hf; [|done].
    apply list_find_Some in Hf as (_ & Hu & _). simpl in Hfind. congruence. }
  unfold feed. rewrite decide_True by done. simpl. f_equal.
  replace (length inputs - scrollback_limit) with k by lia.
  rewrite <- concat_app, <- fmap_app. by rewrite take_drop.
Qed.

Lemma feeding_evicts_nothing_witness :
  let t := {| id := js "t"; title := js "T"; working_directory := js "/";
              is_active := true; output := [] |} in
  let st := {| terminals := [t]; activeTerminalId := Some (js "t");
               isLoading := false; error := None |} in
  let fed := [js "a"; js "b"; js "c"] in
  output_of (js "t") (sendInputs (js "t") fed st)
  = Some (output t ++ concat (echo <$> take 1 fed) ++ Spec.scrollback 2 fed).
Proof.
  intros t st fed.
  apply (feeding_evicts_nothing (js "t") 2 1 fed st t); reflexivity.
Defined.

End RegistryClaims.

Section CreateClaims.
Import TerminalStore.

(** C5 (as stated, refuted). With one session, flagged active and shown as
    the active one, creating a terminal leaves the [is_active] flag of the
    new session false and that of the old session true; and when the new
    terminal is created in the millisecond whose id the old one carries,
    the components still look up the old session as the active one. *)
Lemma create_does_not_flag_the_new_session :
  let t1 := {| id := terminal_id 1; title := js "Terminal 1";
               working_directory := js "/"; is_active := true; output := [] |} in
  let st := {| terminals := [t1]; activeTerminalId := Some (terminal_id 1);
               isLoading := false; error := None |} in
  ¬ Spec.create_activates Spec.by_flag 2 None None st
  ∧ ¬ Spec.create_activates Spec.by_lookup 1 None None st.
Proof.
  intros t1 st. split.
  - intros (new & Hts & _ & Hact & _). simpl in Hts.
    apply (app_inj_tail [t1] [t1]) in Hts as [_ <-].
    unfold Spec.by_flag in Hact. simpl in Hact. discriminate Hact.
  - intros (new & _ & _ & _ & Hold). apply (Hold t1).
    + apply list_elem_of_singleton. reflexivity.
    + reflexivity.
Qed.

(** C5 (amended). For every registry state, createTerminal appends one new
    session with an empty output buffer and [is_active = false] (a session
    carries no editor) and sets [activeTerminalId] to its id; the
    [is_active] flags of the sessions already there are left as they are.
    When the id of the new session is not yet in the registry, the new
    session is the one the components look up as active, and none of the
    earlier sessions is. *)
Theorem createTerminal_appends_and_selects now title workingDirectory st :
  let st' := createTerminal now title workingDirectory st in
  ∃ new,
    terminals st' = terminals st ++ [new]
    ∧ id new = terminal_id now ∧ output new = [] ∧ is_active new = false
    ∧ activeTerminalId st' = Some (terminal_id now)
    ∧ flagged st' = flagged st
    ∧ (terminal_id now ∉ ids st →
       activeTerminal st' = Some new
       ∧ ∀ t, t ∈ terminals st → activeTerminal st' ≠ Some t).
Proof.
  simpl. eexists. split; [reflexivity|]. split_and!; try reflexivity.
  - apply flagged_createTerminal.
  - intros Hfresh. unfold activeTerminal; simpl.
    rewrite find_terminal_snoc_fresh by done. split; [done|].
    intros t Hin [= <-]. apply Hfresh. unfold ids.
    by apply (list_elem_of_fmap_2 id) in Hin.
Qed.

Lemma createTerminal_appends_and_selects_witness :
  let t1 := {| id := terminal_id 1; title := js "Terminal 1";
               working_directory := js "/"; is_active := true; output := [] |} in
  let st := {| terminals := [t1]; activeTerminalId := Some (terminal_id 1);
               isLoading := false; error := None |} in
  let new := {| id := terminal_id 2; title := js "Terminal 2";
                working_directory := js "/"; is_active := false; output := [] |} in
  (terminal_id 2 ∉ ids st)
  ∧ activeTerminal (createTerminal 2 None None st) = Some new
  ∧ flagged (createTerminal 2 None None st) = [t1].
Proof.
  intros t1 st new.
  assert (Hfresh : terminal_id 2 ∉ ids st).
  { intros Hin. apply list_elem_of_singleton in Hin. vm_compute in Hin. discriminate Hin. }
  split; [exact Hfresh|].
  destruct (createTerminal_appends_and_selects 2 None None st)
    as (new' & Hts & _ & _ & _ & _ & Hflags & Hsel).
  simpl in Hts. apply (app_inj_tail [t1] [t1]) in Hts as [_ <-].
  split; [exact (proj1 (Hsel Hfresh)) | exact Hflags].
Defined.

End CreateClaims.

(** ** The registry of providers *)

Section Providers.
Import AppStore.

Lemma find_default_first ps :
  two_defaults ps →
  ∃ i p, find_default ps = Some p ∧ ps !! i = Some p ∧ default p = true
         ∧ ∀ j q, ps !! j = Some q → j < i → default q = false.
Proof.
  intros (i & j & p & q & _ & Hp & _ & Hdp & _). unfold find_default.
  destruct (list_find_elem_of (λ p, default p = true) ps p) as [[k r] Hfind];
    [(by eapply list_elem_of_lookup_2) | done |].
  rewrite Hfind. apply list_find_Some in Hfind as (Hk & Hr & Hbefore).
  exists k, r. split_and!; [done..|].
  intros j' q' Hq' Hlt. specialize (Hbefore j' q' Hq' Hlt).
  by destruct (default q').
Qed.

(** C8 (as stated, refuted). A list of two providers that are both marked
    as default is loaded without an error and replaces the (empty) set of
    providers loaded before. *)
Lemma two_defaults_are_loaded :
  let p1 := {| id := js "openai"; name := js "OpenAI"; provider_type := js "openai";
               base_url := None; model := None; api_key := None;
               default := true; enabled := true; config := [] |} in
  let p2 := {| id := js "ollama"; name := js "Ollama"; provider_type := js "ollama";
               base_url := None; model := None; api_key := None;
               default := true; enabled := true; config := [] |} in
  two_defaults [p1; p2] ∧ ¬ Spec.rejects [p1; p2] initial.
Proof.
  intros p1 p2. split.
  - exists 0, 1, p1, p2. split_and!; [lia|reflexivity..].
  - intros [Herr _]. by apply Herr.
Qed.

(** C8 (amended). For every provider list that contains two providers both
    marked as default, loadProviders accepts the list without an error: the
    loaded provider set becomes that list, and [defaultProvider] becomes
    the id of the first provider of the list marked as default (null when
    that id is empty). *)
Theorem loadProviders_accepts_two_defaults ps st :
  two_defaults ps →
  let st' := loadProviders (Resolved ps) st in
  providers st' = ps ∧ error st' = None
  ∧ ∃ i p, ps !! i = Some p ∧ default p = true
           ∧ (∀ j q, ps !! j = Some q → j < i → default q = false)
           ∧ defaultProvider st' = or_null (Some (id p)).
Proof.
  intros Htwo. simpl. split_and!; [done..|].
  destruct (find_default_first ps Htwo) as (i & p & Hfind & Hp & Hdp & Hfirst).
  exists i, p. rewrite Hfind. done.
Qed.

Lemma loadProviders_accepts_two_defaults_witness :
  let p1 := {| id := js "openai"; name := js "OpenAI"; provider_type := js "openai";
               base_url := None; model := None; api_key := None;
               default := true; enabled := true; config := [] |} in
  let p2 := {| id := js "ollama"; name := js "Ollama"; provider_type := js "ollama";
               base_url := None; model := None; api_key := None;
               default := true; enabled := true; config := [] |} in
  two_defaults [p1; p2]
  ∧ providers (loadProviders (Resolved [p1; p2]) initial) = [p1; p2]
  ∧ error (loadProviders (Resolved [p1; p2]) initial) = None.
Proof.
  intros p1 p2.
  assert (Htwo : two_defaults [p1; p2]).
  { exists 0, 1, p1, p2. split_and!; [lia|reflexivity..]. }
  split; [exact Htwo|].
  destruct (loadProviders_accepts_two_defaults [p1; p2] initial Htwo) as (Hps & Herr & _).
  split; [exact Hps | exact Herr].
Defined.

End Providers.

(** ** Visibility *)

Section Visibility.
Import App.

Lemma handleHotkeyCallback_quick_hide v now st :
  handleHotkeyCallback v now (js "quick_hide") st = setIsVisible false st.
Proof. reflexivity. Qed.

(** C9. Whatever the visibility state, and whatever render the callback
    closes over, the quick_hide callback hides the surface and touches
    nothing else; when the surface is hidden already the state stays as it
    is; and handling quick_hide a second time changes nothing any more. *)
Theorem quick_hide_hides v now st :
  let st' := handleHotkeyCallback v now (js "quick_hide") st in
  Hidden st'
  ∧ isCommandPaletteOpen st' = isCommandPaletteOpen st
  ∧ terminalStore st' = terminalStore st
  ∧ (Hidden st → st' = st)
  ∧ ∀ v' now', handleHotkeyCallback v' now' (js "quick_hide") st' = st'.
Proof.
  simpl. rewrite handleHotkeyCallback_quick_hide. split_and!; try reflexivity.
  intros Hhid. destruct st as [vis pal store]. unfold Hidden in Hhid; simpl in Hhid.
  by subst vis.
Qed.

Lemma quick_hide_hides_witness :
  let shown := {| isVisible := true; isCommandPaletteOpen := true;
                  terminalStore := TerminalStore.initial |} in
  let hidden := {| isVisible := false; isCommandPaletteOpen := true;
                   terminalStore := TerminalStore.initial |} in
  handleHotkeyCallback (render shown) 0 (js "quick_hide") shown = hidden
  ∧ handleHotkeyCallback (render hidden) 0 (js "quick_hide") hidden = hidden.
Proof.
  intros shown hidden. split.
  - reflexivity.
  - apply (proj1 (proj2 (proj2 (proj2 (quick_hide_hides (render hidden) 0 hidden))))).
    reflexivity.
Defined.

End Visibility.

(** * Further properties of the sources *)

(** ** The line editor: typing and deleting *)

Section EditorTyping.
Import Terminal.

(** A key of one code unit reaches the [default] case unless it is [c] or
    [v]: every other [case] label is longer. *)
Lemma handleKeyDown_single e st :
  length (key e) = 1 → key e ≠ js "c" → key e ≠ js "v" →
  handleKeyDown e st = case_default e st.
Proof.
  intros Hlen Hc Hv. unfold handleKeyDown, key_is.
  repeat match goal with
  | |- context [bool_decide (key e = js ?k)] =>
      rewrite (bool_decide_eq_false_2 (key e = js k))
        by (first [assumption
                  | intros Hk; rewrite Hk in Hlen; vm_compute in Hlen;
                    discriminate Hlen])
  end.
  reflexivity.
Qed.

Lemma handleKeyDown_clipboard e st :
  key e = js "c" ∨ key e = js "v" → handleKeyDown e st = case_clipboard e st.
Proof.
  intros [H|H]; unfold handleKeyDown, key_is; rewrite H; reflexivity.
Qed.

Lemma handleKeyDown_Backspace e st :
  key e = js "Backspace" → handleKeyDown e st = Returns (case_Backspace st, prevented).
Proof. intros H. unfold handleKeyDown, key_is. rewrite H. reflexivity. Qed.

Lemma handleKeyDown_Delete e st :
  key e = js "Delete" → handleKeyDown e st = Returns (case_Delete st, prevented).
Proof. intros H. unfold handleKeyDown, key_is. rewrite H. reflexivity. Qed.

Lemma handleKeyDown_ArrowLeft e st :
  key e = js "ArrowLeft" → handleKeyDown e st = Returns (case_ArrowLeft st, prevented).
Proof. intros H. unfold handleKeyDown, key_is. rewrite H. reflexivity. Qed.

(** What inserting the text [k] at the cursor gives. *)
Lemma case_default_inserts e st :
  cursor_ok st → length (key e) = 1 →
  metaKey e = false → ctrlKey e = false → altKey e = false →
  case_default e st =
    Returns (setInput_and_cursor
               (take (Z.to_nat (cursorPosition st)) (input st) ++ key e
                ++ drop (Z.to_nat (cursorPosition st)) (input st))
               (cursorPosition st + 1) st, prevented).
Proof.
  intros Hok Hlen Hm Hc Ha. unfold case_default, cursor_ok, len in *.
  rewrite Hlen, Hm, Hc, Ha. simpl.
  by rewrite slice_prefix, slice_suffix by lia.
Qed.

Lemma handleKeys_app es1 es2 st :
  handleKeys (es1 ++ es2) st =
    match handleKeys es1 st with
    | Returns st' => handleKeys es2 st'
    | TypeError => TypeError
    end.
Proof.
  revert st. induction es1 as [|e es1 IH]; intros st; simpl; [done|].
  destruct (handleKeyDown e st) as [[st' eff]|]; [apply IH|done].
Qed.

Lemma splice_take {A} (l ks : list A) n :
  n ≤ length l → take n (take n l ++ ks ++ drop n l) = take n l.
Proof. intros Hn. apply take_app_length'. rewrite length_take. lia. Qed.

Lemma splice_drop {A} (l ks : list A) n :
  n ≤ length l → drop (n + length ks) (take n l ++ ks ++ drop n l) = drop n l.
Proof.
  intros Hn. rewrite app_assoc. apply drop_app_length'.
  rewrite length_app, length_take. lia.
Qed.

Lemma splice_step {A} (l s : list A) k n :
  n ≤ length l →
  take (S n) (take n l ++ k :: drop n l) ++ s
    ++ drop (S n) (take n l ++ k :: drop n l)
  = take n l ++ (k :: s) ++ drop n l.
Proof.
  intros Hn.
  replace (take n l ++ k :: drop n l) with ((take n l ++ [k]) ++ drop n l)
    by (by rewrite <- app_assoc).
  assert (Hl : S n = length (take n l ++ [k]))
    by (rewrite length_app, length_take; simpl; lia).
  rewrite (take_app_length' _ _ _ Hl), (drop_app_length' _ _ _ Hl).
  by rewrite <- app_assoc.
Qed.

(** Typing a character and pressing Backspace gives back the state before:
    buffer, cursor, history and history index. The character is any key of
    one code unit other than [c] and [v], pressed without modifiers. *)
Theorem typed_character_is_undone_by_Backspace e bs st :
  cursor_ok st → length (key e) = 1 → key e ≠ js "c" → key e ≠ js "v" →
  metaKey e = false → ctrlKey e = false → altKey e = false →
  key bs = js "Backspace" →
  handleKeys [e; bs] st = Returns st.
Proof.
  intros Hok Hlen Hc Hv Hm Hct Ha Hbs. simpl.
  rewrite handleKeyDown_single, case_default_inserts by done.
  rewrite (handleKeyDown_Backspace _ _ Hbs). f_equal.
  unfold cursor_ok, len in Hok.
  destruct st as [s c h i]; simpl in *.
  unfold case_Backspace, setInput_and_cursor; simpl.
  destruct (Z.ltb_spec 0 (c + 1)); [|lia].
  assert (Hl : length (take (Z.to_nat c) s ++ key e ++ drop (Z.to_nat c) s)
               = S (length s)).
  { rewrite !length_app, length_take, length_drop. lia. }
  rewrite slice_prefix, slice_suffix by (rewrite Hl; lia).
  replace (Z.to_nat (c + 1 - 1)) with (Z.to_nat c) by lia.
  replace (Z.to_nat (c + 1)) with (Z.to_nat c + length (key e)) by lia.
  rewrite splice_take, splice_drop by lia.
  rewrite take_drop. f_equal. lia.
Qed.

Lemma typed_character_is_undone_by_Backspace_witness :
  let st := {| input := js "ls -la"; cursorPosition := 2;
               commandHistory := [js "pwd"]; historyIndex := -1 |} in
  handleKeys [type_char 120; press "Backspace"] st = Returns st.
Proof.
  intros st.
  apply (typed_character_is_undone_by_Backspace (type_char 120) (press "Backspace") st);
    try reflexivity; try (vm_compute; discriminate).
  unfold cursor_ok, len; simpl; lia.
Defined.

(** Typing the characters of [s] one after the other puts [s] into the
    buffer at the cursor and moves the cursor behind it, as long as [s]
    has no [c] and no [v]. *)
Theorem typing_inserts_at_the_cursor s st :
  cursor_ok st → Forall (λ c, c ≠ 99%N ∧ c ≠ 118%N) s →
  handleKeys (type_char <$> s) st =
    Returns (setInput_and_cursor
               (take (Z.to_nat (cursorPosition st)) (input st) ++ s
                ++ drop (Z.to_nat (cursorPosition st)) (input st))
               (cursorPosition st + len s) st).
Proof.
  intros Hok Hs. revert st Hok.
  induction Hs as [|k s [Hc Hv] _ IH]; intros st Hok.
  - simpl. f_equal. destruct st as [i c h x]; unfold setInput_and_cursor, len; simpl.
    rewrite take_drop. f_equal. lia.
  - csimpl. rewrite handleKeyDown_single; [|done|..].
    2,3: (simpl; intros [= Hk]; done).
    rewrite case_default_inserts by done.
    unfold cursor_ok, len in Hok.
    rewrite IH.
    2:{ unfold cursor_ok, len; simpl.
        rewrite length_app, length_take; simpl. rewrite length_drop. lia. }
    f_equal. unfold setInput_and_cursor, len; simpl.
    replace (Z.to_nat (cursorPosition st + 1))
      with (S (Z.to_nat (cursorPosition st))) by lia.
    rewrite splice_step by lia. f_equal. lia.
Qed.

Lemma typing_inserts_at_the_cursor_witness :
  let st := {| input := js "ls"; cursorPosition := 2;
               commandHistory := []; historyIndex := -1 |} in
  handleKeys (type_char <$> js " -la") st =
    Returns {| input := js "ls -la"; cursorPosition := 6;
               commandHistory := []; historyIndex := -1 |}.
Proof.
  intros st. apply (typing_inserts_at_the_cursor (js " -la") st).
  - unfold cursor_ok, len; simpl; lia.
  - repeat constructor; discriminate.
Defined.

(** A character key pressed without modifiers changes the buffer unless
    the character is [c] or [v]: those two are taken by the cases of the
    copy and paste shortcuts and never reach the buffer. *)
Theorem only_c_and_v_cannot_be_typed e st :
  cursor_ok st → length (key e) = 1 →
  metaKey e = false → ctrlKey e = false → altKey e = false →
  ∃ st' eff,
    handleKeyDown e st = Returns (st', eff)
    ∧ (key e = js "c" ∨ key e = js "v" → st' = st)
    ∧ (key e ≠ js "c" → key e ≠ js "v" →
       length (input st') = S (length (input st))).
Proof.
  intros Hok Hlen Hm Hct Ha.
  destruct (decide (key e = js "c" ∨ key e = js "v")) as [Hcv|Hcv].
  - rewrite (handleKeyDown_clipboard _ _ Hcv). unfold case_clipboard.
    rewrite Hm, Hct. simpl. do 2 eexists. split; [reflexivity|].
    split; [done|]. intros; tauto.
  - rewrite handleKeyDown_single by tauto.
    rewrite case_default_inserts by done.
    do 2 eexists. split; [reflexivity|]. split; [tauto|]. intros _ _. simpl.
    unfold cursor_ok, len in Hok.
    rewrite !length_app, length_take, length_drop. lia.
Qed.

Lemma only_c_and_v_cannot_be_typed_witness :
  let st := {| input := js "ls"; cursorPosition := 2;
               commandHistory := []; historyIndex := -1 |} in
  ∃ eff, handleKeyDown (type_char 99) st = Returns (st, eff).
Proof.
  intros st.
  assert (Hok : cursor_ok st) by (unfold cursor_ok, len; simpl; lia).
  destruct (only_c_and_v_cannot_be_typed (type_char 99) st Hok eq_refl eq_refl
              eq_refl eq_refl) as (st' & eff & Hret & Hsame & _).
  exists eff. rewrite Hret. by rewrite (Hsame (or_introl eq_refl)).
Defined.

(** With the cursor not at the start, ArrowLeft followed by Delete does
    what Backspace does. *)
Theorem ArrowLeft_Delete_is_Backspace left del bs st :
  cursor_ok st → (0 < cursorPosition st)%Z →
  key left = js "ArrowLeft" → key del = js "Delete" → key bs = js "Backspace" →
  handleKeys [left; del] st = handleKeys [bs] st.
Proof.
  intros Hok Hpos Hl Hd Hb. simpl.
  rewrite (handleKeyDown_ArrowLeft _ _ Hl), (handleKeyDown_Delete _ _ Hd),
    (handleKeyDown_Backspace _ _ Hb). f_equal.
  unfold cursor_ok, len in Hok.
  unfold case_Delete, case_ArrowLeft, case_Backspace, setCursorPosition,
    setInput_and_cursor, len; simpl.
  rewrite Z.max_r by lia.
  destruct (Z.ltb_spec (cursorPosition st - 1) (Z.of_nat (length (input st)))); [|lia].
  destruct (Z.ltb_spec 0 (cursorPosition st)); [|lia].
  by replace (cursorPosition st - 1 + 1)%Z with (cursorPosition st) by lia.
Qed.

Lemma ArrowLeft_Delete_is_Backspace_witness :
  let st := {| input := js "abc"; cursorPosition := 2;
               commandHistory := []; historyIndex := -1 |} in
  handleKeys [press "ArrowLeft"; press "Delete"] st
  = Returns {| input := js "ac"; cursorPosition := 1;
               commandHistory := []; historyIndex := -1 |}.
Proof.
  intros st.
  rewrite (ArrowLeft_Delete_is_Backspace (press "ArrowLeft") (press "Delete")
             (press "Backspace") st);
    [reflexivity | unfold cursor_ok, len; simpl; lia | simpl; lia
    | reflexivity | reflexivity | reflexivity].
Defined.

End EditorTyping.

(** ** The line editor: history *)

Section EditorHistory.
Import Terminal.

Lemma recall_at st i line :
  (0 <= i)%Z → commandHistory st !! Z.to_nat i = Some line →
  recall st i =
    Returns ({| input := line; cursorPosition := len line;
                commandHistory := commandHistory st; historyIndex := i |},
             prevented).
Proof.
  intros Hi Hline. unfold recall, array_get.
  destruct (Z.ltb_spec i 0); [lia|]. by rewrite Hline.
Qed.

Lemma case_ArrowUp_older st :
  commandHistory st ≠ [] → (0 <= historyIndex st)%Z →
  case_ArrowUp st = recall st (Z.max 0 (historyIndex st - 1)).
Proof.
  intros Hne Hidx. unfold case_ArrowUp.
  destruct (Z.ltb_spec 0 (Z.of_nat (length (commandHistory st)))) as [_|Hlen].
  - destruct (Z.eqb_spec (historyIndex st) (-1)); [lia|done].
  - destruct (commandHistory st); [done|simpl in Hlen; lia].
Qed.

(** A line that was submitted is the one ArrowUp brings back: after Enter
    on a buffer that is not blank, ArrowUp shows that very line with the
    cursor at its end, as the newest entry of the history. *)
Theorem submitted_line_is_recalled enter up st :
  key enter = js "Enter" → key up = js "ArrowUp" → ¬ blank (input st) →
  handleKeys [enter; up] st =
    Returns {| input := input st; cursorPosition := len (input st);
               commandHistory := commandHistory st ++ [input st];
               historyIndex := Z.of_nat (length (commandHistory st)) |}.
Proof.
  intros He Hu Hb. simpl.
  rewrite (handleKeyDown_Enter _ _ He), (case_Enter_not_blank _ Hb).
  rewrite (handleKeyDown_ArrowUp _ _ Hu).
  destruct (case_ArrowUp_enter
              {| input := []; cursorPosition := 0;
                 commandHistory := commandHistory st ++ [input st];
                 historyIndex := -1 |}) as (line & Hlast & ->); simpl.
  - by destruct (commandHistory st).
  - done.
  - simpl in Hlast. rewrite last_snoc in Hlast. injection Hlast as <-.
    f_equal. f_equal. rewrite length_app; simpl. lia.
Qed.

Lemma submitted_line_is_recalled_witness :
  let st := {| input := js "ls -la"; cursorPosition := 3;
               commandHistory := [js "pwd"]; historyIndex := -1 |} in
  handleKeys [press "Enter"; press "ArrowUp"] st =
    Returns {| input := js "ls -la"; cursorPosition := 6;
               commandHistory := [js "pwd"; js "ls -la"]; historyIndex := 1 |}.
Proof.
  intros st.
  apply (submitted_line_is_recalled (press "Enter") (press "ArrowUp") st eq_refl eq_refl).
  intros Hb. inversion Hb as [|c s Hc _]. vm_compute in Hc. discriminate Hc.
Defined.

(** Walking back: from a state that is not browsing, [n] presses of
    ArrowUp (one at least) show the entry [n] places from the end of the
    history, and the oldest entry once [n] exceeds the length of the
    history; the walk stops there. *)
Theorem ArrowUp_walks_back_and_stops up n st :
  key up = js "ArrowUp" → commandHistory st ≠ [] → historyIndex st = (-1)%Z →
  0 < n →
  let i := Z.max 0 (Z.of_nat (length (commandHistory st)) - Z.of_nat n) in
  ∃ line,
    commandHistory st !! Z.to_nat i = Some line
    ∧ handleKeys (replicate n up) st =
        Returns {| input := line; cursorPosition := len line;
                   commandHistory := commandHistory st; historyIndex := i |}.
Proof.
  intros Hu Hne Hidx Hn. simpl.
  assert (Hlen : 0 < length (commandHistory st))
    by (destruct (commandHistory st); [done|simpl; lia]).
  induction n as [|n IH]; [lia|].
  destruct (decide (n = 0)) as [->|Hn0].
  - simpl. rewrite (handleKeyDown_ArrowUp _ _ Hu).
    destruct (case_ArrowUp_enter st Hne Hidx) as (line & Hlast & ->).
    exists line. rewrite Z.max_r by lia.
    split; [|done].
    rewrite last_lookup in Hlast. rewrite <- Hlast. f_equal. lia.
  - destruct IH as (line & Hline & Hrun); [lia|].
    replace (S n) with (n + 1) by lia.
    rewrite replicate_add, handleKeys_app, Hrun. simpl.
    rewrite (handleKeyDown_ArrowUp _ _ Hu).
    rewrite case_ArrowUp_older by (simpl; first [done | lia]). simpl.
    set (j := Z.max 0 (Z.max 0 (Z.of_nat (length (commandHistory st)) - Z.of_nat n) - 1)).
    assert (Hj : j = Z.max 0 (Z.of_nat (length (commandHistory st)) - Z.of_nat (n + 1)))
      by (unfold j; lia).
    destruct (lookup_lt_is_Some_2 (commandHistory st) (Z.to_nat j)) as [line' Hline'];
      [unfold j; lia|].
    exists line'. rewrite <- Hj. split; [done|].
    by rewrite (recall_at _ j line') by (simpl; first [done | unfold j; lia]).
Qed.

Lemma ArrowUp_walks_back_and_stops_witness :
  let st := {| input := js "x"; cursorPosition := 1;
               commandHistory := [js "pwd"; js "ls"]; historyIndex := -1 |} in
  handleKeys (replicate 5 (press "ArrowUp")) st =
    Returns {| input := js "pwd"; cursorPosition := 3;
               commandHistory := [js "pwd"; js "ls"]; historyIndex := 0 |}.
Proof.
  intros st.
  destruct (ArrowUp_walks_back_and_stops (press "ArrowUp") 5 st eq_refl)
    as (line & Hline & Hrun); [discriminate | reflexivity | lia |].
  simpl in Hline. injection Hline as <-. exact Hrun.
Defined.

(** While browsing, ArrowUp followed by ArrowDown comes back to the entry
    browsing was at, shown as it is in the history: edits made to the
    recalled line are gone. *)
Theorem ArrowUp_ArrowDown_returns_to_entry up down st line :
  key up = js "ArrowUp" → key down = js "ArrowDown" →
  (0 < historyIndex st)%Z →
  commandHistory st !! Z.to_nat (historyIndex st) = Some line →
  handleKeys [up; down] st =
    Returns {| input := line; cursorPosition := len line;
               commandHistory := commandHistory st;
               historyIndex := historyIndex st |}.
Proof.
  intros Hu Hd Hpos Hline. simpl.
  assert (Hlt : Z.to_nat (historyIndex st) < length (commandHistory st))
    by (by eapply lookup_lt_Some).
  rewrite (handleKeyDown_ArrowUp _ _ Hu).
  rewrite case_ArrowUp_older by (first [lia | by destruct (commandHistory st)]).
  rewrite Z.max_r by lia.
  destruct (lookup_lt_is_Some_2 (commandHistory st) (Z.to_nat (historyIndex st - 1)))
    as [older Holder]; [lia|].
  rewrite (recall_at _ _ older) by (first [done | lia]).
  rewrite (handleKeyDown_ArrowDown _ _ Hd). unfold case_ArrowDown; simpl.
  destruct (Z.eqb_spec (historyIndex st - 1) (-1)); [lia|]. simpl.
  destruct (Z.leb_spec (Z.of_nat (length (commandHistory st)))
              (historyIndex st - 1 + 1)); [lia|].
  replace (historyIndex st - 1 + 1)%Z with (historyIndex st) by lia.
  by rewrite (recall_at _ _ line) by (simpl; first [done | lia]).
Qed.

Lemma ArrowUp_ArrowDown_returns_to_entry_witness :
  let st := {| input := js "ls -l"; cursorPosition := 5;
               commandHistory := [js "pwd"; js "ls"]; historyIndex := 1 |} in
  handleKeys [press "ArrowUp"; press "ArrowDown"] st =
    Returns {| input := js "ls"; cursorPosition := 2;
               commandHistory := [js "pwd"; js "ls"]; historyIndex := 1 |}.
Proof.
  intros st.
  apply (ArrowUp_ArrowDown_returns_to_entry (press "ArrowUp") (press "ArrowDown")
           st (js "ls") eq_refl eq_refl); [simpl; lia | reflexivity].
Defined.

End EditorHistory.

(** ** The line editor: what is submitted, what is shown *)

Section EditorLog.
Import Terminal.

Lemma recall_log st i st' eff :
  recall st i = Returns (st', eff) →
  commandHistory st' = commandHistory st ∧ onInput_calls eff = [].
Proof.
  unfold recall. destruct (array_get _ _); [|done]. by intros [= <- <-].
Qed.

(** One key: the history grows by exactly the lines handed to [onInput],
    and such a line is never blank. *)
Lemma handleKeyDown_log e st st' eff :
  handleKeyDown e st = Returns (st', eff) →
  commandHistory st' = commandHistory st ++ onInput_calls eff
  ∧ Forall (λ line, ¬ blank line) (onInput_calls eff).
Proof.
  assert (Hsame : ∀ st' eff,
    commandHistory st' = commandHistory st ∧ onInput_calls eff = [] →
    commandHistory st' = commandHistory st ++ onInput_calls eff
    ∧ Forall (λ line, ¬ blank line) (onInput_calls eff)).
  { intros ?? [-> ->]. by rewrite app_nil_r. }
  unfold handleKeyDown.
  repeat (destruct (key_is e _)).
  - unfold case_Enter. destruct (truthy (trim (input st))) eqn:Ht; intros [= <- <-].
    + simpl. split; [done|]. repeat constructor. by apply truthy_trim.
    + by apply Hsame.
  - unfold case_ArrowUp. case_match; [|intros [= <- <-]; by apply Hsame].
    intros Hr. apply Hsame. by eapply recall_log.
  - unfold case_ArrowDown. repeat case_match; try (intros [= <- <-]; by apply Hsame).
    intros Hr. apply Hsame. by eapply recall_log.
  - intros [= <- <-]. by apply Hsame.
  - intros [= <- <-]. by apply Hsame.
  - intros [= <- <-]. by apply Hsame.
  - intros [= <- <-]. by apply Hsame.
  - intros [= <- <-]. apply Hsame. unfold case_Backspace. by case_match.
  - intros [= <- <-]. apply Hsame. unfold case_Delete. by case_match.
  - intros [= <- <-]. by apply Hsame.
  - unfold case_clipboard. case_match; intros [= <- <-]; by apply Hsame.
  - unfold case_clipboard. case_match; intros [= <- <-]; by apply Hsame.
  - unfold case_default. case_match; intros [= <- <-]; by apply Hsame.
Qed.

(** The history is the log of what was submitted: after any sequence of
    keys, the history is the history before followed by the lines handed
    to [onInput], in order, and none of these lines is blank. No key
    removes or rewrites an entry. *)
Theorem history_is_the_log_of_submitted_lines es st st' lines :
  submitted es st = Returns (st', lines) →
  commandHistory st' = commandHistory st ++ lines
  ∧ Forall (λ line, ¬ blank line) lines.
Proof.
  revert st st' lines. induction es as [|e es IH]; intros st st' lines; simpl.
  - intros [= <- <-]. by rewrite app_nil_r.
  - destruct (handleKeyDown e st) as [[st1 eff]|] eqn:Hstep; [|done].
    destruct (submitted es st1) as [[st2 rest]|] eqn:Hrest; [|done].
    intros [= <- <-].
    apply handleKeyDown_log in Hstep as [Hh Hb].
    apply IH in Hrest as [Hh' Hb'].
    rewrite Hh', Hh, app_assoc. split; [done|]. by apply Forall_app.
Qed.

Lemma history_is_the_log_of_submitted_lines_witness :
  let es := (type_char <$> js "ls") ++ [press "Enter"; press "Enter"]
            ++ (type_char <$> js "  ") ++ [press "Enter"]
            ++ [press "ArrowUp"; press "Enter"] in
  ∃ st', submitted es initial = Returns (st', [js "ls"; js "ls"])
         ∧ commandHistory st' = [js "ls"; js "ls"].
Proof.
  intros es.
  destruct (submitted es initial) as [[st' lines]|] eqn:Hrun;
    [|vm_compute in Hrun; discriminate Hrun].
  destruct (history_is_the_log_of_submitted_lines es initial st' lines Hrun)
    as [Hh _].
  assert (Hlines : lines = [js "ls"; js "ls"])
    by (vm_compute in Hrun; by injection Hrun as _ <-).
  exists st'. subst lines. split; [done|exact Hh].
Defined.

Lemma submitted_handleKeys es st :
  handleKeys es st =
    match submitted es st with
    | Returns (st', _) => Returns st'
    | TypeError => TypeError
    end.
Proof.
  revert st. induction es as [|e es IH]; intros st; simpl; [done|].
  destruct (handleKeyDown e st) as [[st1 eff]|]; [|done].
  rewrite IH. by destruct (submitted es st1) as [[]|].
Qed.

(** Whatever keys are pressed after the component is mounted, the handler
    never throws: no history entry is read outside the history, the cursor
    stays inside the buffer and the history index stays [-1] or in
    range. *)
Theorem no_key_sequence_throws es :
  ∃ st', handleKeys es initial = Returns st' ∧ history_ok st' ∧ cursor_ok st'.
Proof.
  apply handleKeys_returns.
  - by left.
  - unfold cursor_ok, len; simpl. lia.
Qed.

Lemma slice_cut s (c : Z) : slice s 0 (Some c) ++ slice s c None = s.
Proof.
  unfold slice, slice_index.
  change (0 <? 0)%Z with false. cbv iota.
  replace (Z.min 0 (Z.of_nat (length s))) with 0%Z by lia.
  change (Z.to_nat 0) with 0. rewrite drop_0, Z.sub_0_r.
  destruct (Z.ltb_spec c 0);
    rewrite (take_ge (drop _ s)) by (rewrite length_drop; lia);
    apply take_drop.
Qed.

(** The input line always shows the whole buffer, once, with one cursor
    block: the text before and after the cursor block is the buffer,
    whatever value the cursor position has, in range or not. *)
Theorem renderCursor_shows_the_buffer st :
  text_of (renderCursor st) = input st ∧ Cursor ∈ renderCursor st.
Proof.
  unfold renderCursor. destruct (input st) as [|c s] eqn:Hin; simpl.
  - split; [done|]. apply list_elem_of_here.
  - rewrite app_nil_r. split; [apply (slice_cut (c :: s))|].
    apply list_elem_of_further, list_elem_of_here.
Qed.

End EditorLog.

(** ** The output of a session, line by line *)

Section OutputLines.
Import Terminal TerminalStore.

Lemma split_cons_inv sep s : ∃ piece pieces, split sep s = piece :: pieces.
Proof.
  induction s as [|c s (piece & pieces & IH)]; simpl; [by eauto|].
  destruct (c =? sep)%N; [by eauto|]. rewrite IH. by eauto.
Qed.

Lemma join_cons_cons sep c piece pieces :
  join sep ((c :: piece) :: pieces) = c :: join sep (piece :: pieces).
Proof. by destruct pieces. Qed.

Lemma join_split sep s : join sep (split sep s) = s.
Proof.
  induction s as [|c s IH]; simpl; [done|].
  destruct (split_cons_inv sep s) as (piece & pieces & Hs).
  destruct (N.eqb_spec c sep) as [->|Hne].
  - rewrite Hs in *. simpl. by rewrite <- IH.
  - rewrite Hs in *. rewrite join_cons_cons. by rewrite IH.
Qed.

Lemma length_split sep s :
  length (split sep s) = S (length (filter (λ c, c = sep) s)).
Proof.
  induction s as [|c s IH]; simpl; [done|].
  destruct (split_cons_inv sep s) as (piece & pieces & Hs).
  rewrite filter_cons.
  destruct (N.eqb_spec c sep) as [->|Hne].
  - rewrite decide_True by done. simpl. by rewrite IH.
  - rewrite decide_False by done. rewrite Hs in *. simpl in *. done.
Qed.

Lemma split_no_sep sep s : Forall (λ piece, sep ∉ piece) (split sep s).
Proof.
  induction s as [|c s IH]; simpl.
  - repeat constructor. apply not_elem_of_nil.
  - destruct (split_cons_inv sep s) as (piece & pieces & Hs).
    rewrite Hs in *. apply Forall_cons in IH as [Hp Hps].
    destruct (N.eqb_spec c sep) as [->|Hne].
    + repeat constructor; [apply not_elem_of_nil|done..].
    + constructor; [|done]. rewrite not_elem_of_cons. split; [congruence|done].
Qed.

Lemma split_line sep l r :
  sep ∉ l → split sep (l ++ sep :: r) = l :: split sep r.
Proof.
  induction l as [|c l IH]; simpl.
  - intros _. by rewrite N.eqb_refl.
  - rewrite not_elem_of_cons. intros [Hne Hl].
    destruct (N.eqb_spec c sep); [congruence|]. by rewrite IH.
Qed.

(** The lines shown for an output are the pieces between its line feeds:
    joined by line feeds they give the output back, there is one more of
    them than there are line feeds (an output that ends in a line feed is
    shown with an empty last line), and no line holds a line feed. *)
Theorem formatOutput_cuts_at_line_feeds output :
  join 10 (formatOutput output) = output
  ∧ length (formatOutput output) = S (length (filter (λ c, c = 10%N) output))
  ∧ Forall (λ line, 10%N ∉ line) (formatOutput output).
Proof.
  unfold formatOutput. split_and!.
  - apply join_split.
  - apply length_split.
  - apply split_no_sep.
Qed.

Lemma formatOutput_echoes inputs :
  Forall (λ i, 10%N ∉ i) inputs →
  formatOutput (concat (echo <$> inputs)) = ((λ i, js "$ " ++ i) <$> inputs) ++ [[]].
Proof.
  unfold formatOutput. induction 1 as [|i inputs Hi _ IH]; [done|].
  rewrite !fmap_cons, concat_cons. unfold echo at 1.
  replace ((js "$ " ++ i ++ [10%N]) ++ concat (echo <$> inputs))
    with ((js "$ " ++ i) ++ 10%N :: concat (echo <$> inputs))
    by (by rewrite <- !app_assoc).
  rewrite split_line; [by rewrite IH|].
  rewrite not_elem_of_app. split; [|done].
  apply (bool_decide_eq_true_1 (10%N ∉ js "$ ")). reflexivity.
Qed.

Lemma output_of_sendInputs terminalId inputs st t :
  find_terminal terminalId (terminals st) = Some t →
  output_of terminalId (sendInputs terminalId inputs st)
  = Some (output t ++ concat (echo <$> inputs)).
Proof.
  intros Hfind. unfold output_of.
  rewrite terminals_sendInputs.
  rewrite find_terminal_fmap by (intros; apply id_feed).
  rewrite Hfind; simpl. f_equal.
  assert (Hid : id t = terminalId).
  { unfold find_terminal in Hfind.
    destruct (list_find _ _) as [[i u]|] eqn:Hf; [|done].
    apply list_find_Some in Hf as (_ & Hu & _). simpl in Hfind. congruence. }
  unfold feed. by rewrite decide_True.
Qed.

(** What the terminal shows after lines were sent: for a session whose
    output was empty and inputs without line feeds, one line [$ input]
    per input, in the order sent, and one empty line at the end. *)
Theorem sent_lines_are_shown_in_order terminalId inputs st t :
  find_terminal terminalId (terminals st) = Some t → output t = [] →
  Forall (λ i, 10%N ∉ i) inputs →
  formatOutput <$> output_of terminalId (sendInputs terminalId inputs st)
  = Some (((λ i, js "$ " ++ i) <$> inputs) ++ [[]]).
Proof.
  intros Hfind Hout Hin.
  rewrite (output_of_sendInputs terminalId inputs st t Hfind).
  rewrite Hout. simpl. by rewrite formatOutput_echoes.
Qed.

Lemma sent_lines_are_shown_in_order_witness :
  let t := {| id := js "t"; title := js "T"; working_directory := js "/";
              is_active := true; output := [] |} in
  let st := {| terminals := [t]; activeTerminalId := Some (js "t");
               isLoading := false; error := None |} in
  formatOutput <$> output_of (js "t") (sendInputs (js "t") [js "ls"; js "pwd"] st)
  = Some [js "$ ls"; js "$ pwd"; []].
Proof.
  intros t st.
  apply (sent_lines_are_shown_in_order (js "t") [js "ls"; js "pwd"] st t);
    [reflexivity | reflexivity |].
  apply (bool_decide_eq_true_1 (Forall (λ i, 10%N ∉ i) [js "ls"; js "pwd"])).
  reflexivity.
Defined.

End OutputLines.

(** ** The registry of terminal sessions: closing and activating *)

Section RegistryMore.
Import TerminalStore.

Lemma filter_filter_same {A} (P : A → Prop) `{!∀ x, Decision (P x)} (l : list A) :
  filter P (filter P l) = filter P l.
Proof. by apply list_filter_filter_l. Qed.

Lemma first_remaining_not_closed x (ts : list TerminalSession) :
  or_null (id <$> filter (λ t, id t ≠ x) ts !! 0) ≠ Some x.
Proof.
  destruct (filter (λ t, id t ≠ x) ts !! 0) as [t|] eqn:Ht; simpl; [|done].
  apply list_elem_of_lookup_2, list_elem_of_filter in Ht as [Hne _].
  destruct (truthy (id t)); congruence.
Qed.

(** Closing a terminal a second time changes nothing: the whole state of
    the store is the one after the first call. *)
Theorem closeTerminal_twice x st :
  closeTerminal x (closeTerminal x st) = closeTerminal x st.
Proof.
  unfold closeTerminal; simpl. rewrite filter_filter_same. f_equal.
  destruct (decide (activeTerminalId st = Some x)) as [Heq|Hne].
  - rewrite decide_False; [done|]. apply first_remaining_not_closed.
  - by rewrite decide_False.
Qed.

Lemma filter_none_out x (ts : list TerminalSession) :
  x ∉ id <$> ts → filter (λ t, id t ≠ x) ts = ts.
Proof.
  induction ts as [|t ts IH]; [done|]. csimpl.
  rewrite not_elem_of_cons. intros [Hne Hrest].
  rewrite filter_cons_True by done. by rewrite IH.
Qed.

(** Closing an id that no session has is not an error: the sessions stay
    as they are, no error is recorded, and the active id stays too when it
    is the id of a session. *)
Theorem closeTerminal_unknown_id x st :
  x ∉ ids st →
  terminals (closeTerminal x st) = terminals st
  ∧ error (closeTerminal x st) = None
  ∧ (active_known st →
     activeTerminalId (closeTerminal x st) = activeTerminalId st).
Proof.
  intros Hx. unfold closeTerminal; simpl.
  rewrite filter_none_out by done. split_and!; [done..|].
  intros Hknown. rewrite decide_False; [done|].
  intros Hact. by apply Hknown in Hact.
Qed.

Lemma closeTerminal_unknown_id_witness :
  let t := {| id := js "a"; title := js "A"; working_directory := js "/";
              is_active := true; output := [] |} in
  let st := {| terminals := [t]; activeTerminalId := Some (js "a");
               isLoading := false; error := None |} in
  terminals (closeTerminal (js "b") st) = [t]
  ∧ activeTerminalId (closeTerminal (js "b") st) = Some (js "a").
Proof.
  intros t st.
  assert (Hx : js "b" ∉ ids st)
    by (apply (bool_decide_eq_true_1 (js "b" ∉ ids st)); reflexivity).
  destruct (closeTerminal_unknown_id (js "b") st Hx) as (Hts & _ & Hact).
  split; [exact Hts|]. apply Hact.
  intros x [= <-]. apply list_elem_of_here.
Defined.

Lemma set_is_active_twice b b' t :
  set_is_active b (set_is_active b' t) = set_is_active b t.
Proof. done. Qed.

(** Of two activations in a row the last one decides: the state is the
    one the second call alone would give. In particular activating the
    same id twice is the same as once. *)
Theorem setActiveTerminal_last_wins x y st :
  setActiveTerminal y (setActiveTerminal x st) = setActiveTerminal y st.
Proof.
  unfold setActiveTerminal; simpl. f_equal.
  rewrite <- list_fmap_compose. by apply list_fmap_ext.
Qed.

Lemma mark_found x (ts : list TerminalSession) t :
  NoDup (id <$> ts) → find_terminal x ts = Some t →
  filter (λ u, is_active u = true)
    ((λ u, set_is_active (bool_decide (id u = x)) u) <$> ts)
  = [set_is_active true t]
  ∧ find_terminal x ((λ u, set_is_active (bool_decide (id u = x)) u) <$> ts)
    = Some (set_is_active true t).
Proof.
  unfold find_terminal.
  induction ts as [|u ts IH]; [done|]. csimpl.
  rewrite NoDup_cons. intros [Hnotin Hnd].
  destruct (decide (id u = x)) as [Heq|Hne]; simpl.
  - intros [= <-].
    rewrite filter_cons_True by (simpl; by rewrite bool_decide_eq_true_2).
    rewrite mark_absent by congruence.
    by rewrite bool_decide_eq_true_2.
  - intros Hfind.
    rewrite filter_cons_False
      by (simpl; rewrite bool_decide_eq_false_2 by done; discriminate).
    destruct (list_find (λ t0, id t0 = x) ts) as [[i v]|] eqn:Hf; [|done].
    simpl in Hfind. injection Hfind as <-.
    destruct (IH Hnd eq_refl) as [-> Hfound]. split; [done|].
    destruct (list_find _ (_ <$> ts)) as [[j w]|]; simpl in *; congruence.
Qed.

(** Activating the id of a session, in a registry without repeated ids:
    that session is then the only one with [is_active = true], and it is
    the one looked up through [activeTerminalId]; flag and lookup agree. *)
Theorem setActiveTerminal_flag_and_lookup_agree x st t :
  NoDup (ids st) → find_terminal x (terminals st) = Some t →
  flagged (setActiveTerminal x st) = [set_is_active true t]
  ∧ activeTerminal (setActiveTerminal x st) = Some (set_is_active true t).
Proof. intros Hnd Hfind. by apply mark_found. Qed.

Lemma setActiveTerminal_flag_and_lookup_agree_witness :
  let a := {| id := js "a"; title := js "A"; working_directory := js "/";
              is_active := true; output := [] |} in
  let b := {| id := js "b"; title := js "B"; working_directory := js "/";
              is_active := false; output := [] |} in
  let st := {| terminals := [a; b]; activeTerminalId := Some (js "a");
               isLoading := false; error := None |} in
  flagged (setActiveTerminal (js "b") st) = [set_is_active true b]
  ∧ activeTerminal (setActiveTerminal (js "b") st) = Some (set_is_active true b).
Proof.
  intros a b st.
  apply (setActiveTerminal_flag_and_lookup_agree (js "b") st b); [|reflexivity].
  apply (bool_decide_eq_true_1 (NoDup (ids st))). reflexivity.
Defined.

Lemma find_terminal_absent x (ts : list TerminalSession) :
  x ∉ id <$> ts → find_terminal x ts = None.
Proof.
  intros Hx. unfold find_terminal.
  destruct (list_find (λ t, id t = x) ts) as [[i t]|] eqn:Hf; [|done].
  apply list_find_Some in Hf as (Hi & Hid & _).
  destruct Hx. rewrite <- Hid.
  by apply (list_elem_of_fmap_2 id), (list_elem_of_lookup_2 _ i).
Qed.

(** Activating an id that no session has is not an error either: every
    [is_active] flag is cleared, [activeTerminalId] is set to that id all
    the same, and looking it up finds no session. *)
Theorem setActiveTerminal_unknown_id x st :
  x ∉ ids st →
  flagged (setActiveTerminal x st) = []
  ∧ activeTerminalId (setActiveTerminal x st) = Some x
  ∧ activeTerminal (setActiveTerminal x st) = None
  ∧ error (setActiveTerminal x st) = None.
Proof.
  intros Hx. split_and!; try done.
  - by apply mark_absent.
  - unfold activeTerminal; simpl. apply find_terminal_absent.
    change (x ∉ ids (setActiveTerminal x st)). by rewrite ids_setActiveTerminal.
Qed.

Lemma setActiveTerminal_unknown_id_witness :
  let a := {| id := js "a"; title := js "A"; working_directory := js "/";
              is_active := true; output := [] |} in
  let st := {| terminals := [a]; activeTerminalId := Some (js "a");
               isLoading := false; error := None |} in
  flagged (setActiveTerminal (js "zz") st) = []
  ∧ activeTerminalId (setActiveTerminal (js "zz") st) = Some (js "zz")
  ∧ activeTerminal (setActiveTerminal (js "zz") st) = None
  ∧ error (setActiveTerminal (js "zz") st) = None.
Proof.
  intros a st. apply (setActiveTerminal_unknown_id (js "zz") st).
  apply (bool_decide_eq_true_1 (js "zz" ∉ ids st)). reflexivity.
Defined.

Lemma perform_keeps_active_known a st :
  active_known st →
  match a with
  | SetActiveTerminal x => x ∈ ids st
  | _ => True
  end →
  active_known (perform st a).
Proof.
  intros Hknown Ha. destruct a as [now t w|x|x]; simpl.
  - intros y [= <-]. rewrite ids_createTerminal.
    apply elem_of_app. right. apply list_elem_of_here.
  - intros y. unfold closeTerminal, ids; simpl.
    destruct (decide (activeTerminalId st = Some x)) as [Heq|Hne].
    + destruct (filter (λ t, id t ≠ x) (terminals st) !! 0) as [t|] eqn:Ht;
        simpl; [|done].
      destruct (truthy (id t)); [|done]. intros [= <-].
      by apply (list_elem_of_fmap_2 id), (list_elem_of_lookup_2 _ 0).
    + intros Hy. pose proof (Hknown y Hy) as Hin.
      apply list_elem_of_fmap in Hin as (t & -> & Ht).
      apply (list_elem_of_fmap_2 id), list_elem_of_filter. split; [congruence|done].
  - intros y [= <-]. by rewrite ids_setActiveTerminal.
Qed.

(** The active id never dangles on its own: starting from a registry in
    which [activeTerminalId] is [null] or the id of a session, any sequence
    of createTerminal, closeTerminal and setActiveTerminal leaves it so,
    provided every setActiveTerminal names a session the registry has at
    that moment. Creating and closing need no such proviso. *)
Theorem run_keeps_active_known acts st :
  active_known st → known_targets acts st → active_known (run acts st).
Proof.
  unfold run. revert st. induction acts as [|a acts IH]; intros st Hk Ht; [done|].
  destruct Ht as [Ha Hrest]. simpl. apply IH; [|done].
  by apply perform_keeps_active_known.
Qed.

Lemma run_keeps_active_known_witness :
  let acts := [CreateTerminal 5 None None; CreateTerminal 6 None None;
               SetActiveTerminal (terminal_id 5); CloseTerminal (terminal_id 5);
               CloseTerminal (terminal_id 6)] in
  active_known (run acts initial).
Proof.
  intros acts. apply (run_keeps_active_known acts initial).
  - intros x Hx. discriminate Hx.
  - simpl. split_and!; try exact I.
    apply (bool_decide_eq_true_1 (terminal_id 5 ∈ [terminal_id 5; terminal_id 6])).
    reflexivity.
Defined.

End RegistryMore.

(** ** The registry of terminal sessions: output and loading *)

Section RegistryOutput.
Import TerminalStore.

Lemma clear_feed terminalId text t :
  (if decide (id (feed terminalId text t) = terminalId)
   then set_output [] (feed terminalId text t)
   else feed terminalId text t)
  = if decide (id t = terminalId) then set_output [] t else t.
Proof.
  rewrite id_feed. unfold feed. by destruct (decide (id t = terminalId)).
Qed.

Lemma find_terminal_known x (ts : list TerminalSession) :
  x ∈ id <$> ts → ∃ t, find_terminal x ts = Some t ∧ id t = x.
Proof.
  intros (t & -> & Ht)%list_elem_of_fmap. unfold find_terminal.
  destruct (list_find_elem_of (λ u, id u = id t) ts t Ht eq_refl) as [[i u] Hf].
  rewrite Hf. apply list_find_Some in Hf as (_ & Hu & _). by exists u.
Qed.

(** Clearing wipes whatever was sent: clearing the output of a session
    after any number of lines were sent to it leaves the sessions as
    clearing right away would, and the output of that session is then
    empty. *)
Theorem clearOutput_discards_what_was_sent terminalId inputs st :
  terminals (clearOutput terminalId (sendInputs terminalId inputs st))
  = terminals (clearOutput terminalId st)
  ∧ (terminalId ∈ ids st →
     output_of terminalId (clearOutput terminalId (sendInputs terminalId inputs st))
     = Some []).
Proof.
  assert (Hts : terminals (clearOutput terminalId (sendInputs terminalId inputs st))
                = terminals (clearOutput terminalId st)).
  { unfold clearOutput; simpl. rewrite terminals_sendInputs, <- list_fmap_compose.
    apply list_fmap_ext. intros ? t _. apply clear_feed. }
  split; [done|]. intros Hin. unfold output_of. rewrite Hts.
  unfold clearOutput; simpl.
  rewrite find_terminal_fmap by (intros t; by case_decide).
  destruct (find_terminal_known _ _ Hin) as (t & -> & Hid). simpl.
  by rewrite decide_True.
Qed.

Lemma clearOutput_discards_what_was_sent_witness :
  let t := {| id := js "t"; title := js "T"; working_directory := js "/";
              is_active := true; output := js "old" |} in
  let st := {| terminals := [t]; activeTerminalId := Some (js "t");
               isLoading := false; error := None |} in
  output_of (js "t") (clearOutput (js "t") (sendInputs (js "t") [js "ls"] st))
  = Some [].
Proof.
  intros t st.
  apply (proj2 (clearOutput_discards_what_was_sent (js "t") [js "ls"] st)).
  apply list_elem_of_here.
Defined.

Lemma feed_other terminalId text t : id t ≠ terminalId → feed terminalId text t = t.
Proof. intros Hne. unfold feed. by rewrite decide_False. Qed.

(** Sending input touches nothing but the output of the sessions with the
    given id: ids, titles, directories and [is_active] flags of all
    sessions, the sessions with another id, and [activeTerminalId] stay
    as they are, whether the native call succeeds or not; when it is
    rejected, or when no session has the id, no output changes at all. *)
Theorem sendInput_changes_only_that_output r terminalId input st :
  let st' := sendInput r terminalId input st in
  set_output [] <$> terminals st' = set_output [] <$> terminals st
  ∧ filter (λ t, id t ≠ terminalId) (terminals st')
    = filter (λ t, id t ≠ terminalId) (terminals st)
  ∧ activeTerminalId st' = activeTerminalId st
  ∧ ((∃ reason, r = Rejected reason) ∨ terminalId ∉ ids st →
     terminals st' = terminals st).
Proof.
  destruct r as [[]|reason]; simpl.
  - split_and!; [| |done|].
    + rewrite <- list_fmap_compose. apply list_fmap_ext. intros ? t _. simpl.
      unfold feed. by case_decide.
    + induction (terminals st) as [|t ts IH]; [done|]. csimpl.
      rewrite !filter_cons, id_feed. case_decide; [|done].
      by rewrite feed_other, IH.
    + intros [[reason [=]]|Hx].
      rewrite <- (list_fmap_id (terminals st)) at 2.
      apply list_fmap_ext. intros i t Ht. simpl. apply feed_other.
      intros <-. apply Hx, (list_elem_of_fmap_2 id), (list_elem_of_lookup_2 _ i), Ht.
  - by split_and!.
Qed.

Lemma sendInput_changes_only_that_output_witness :
  let t := {| id := js "t"; title := js "T"; working_directory := js "/";
              is_active := true; output := js "old" |} in
  let st := {| terminals := [t]; activeTerminalId := Some (js "t");
               isLoading := false; error := None |} in
  terminals (sendInput (Rejected (js "no pty")) (js "t") (js "ls") st) = [t]
  ∧ terminals (sendInput (Resolved ()) (js "u") (js "ls") st) = [t].
Proof.
  intros t st. split.
  - apply (proj2 (proj2 (proj2 (sendInput_changes_only_that_output
             (Rejected (js "no pty")) (js "t") (js "ls") st)))).
    left. by eexists.
  - apply (proj2 (proj2 (proj2 (sendInput_changes_only_that_output
             (Resolved ()) (js "u") (js "ls") st)))).
    right. apply (bool_decide_eq_true_1 (js "u" ∉ ids st)). reflexivity.
Defined.

(** After the sessions are loaded from the native side, [activeTerminalId]
    is [null] or the id of a loaded session: the id of the first session
    flagged [is_active], when that id is not empty; with no session
    flagged, the id of the first session, whose flag then says
    otherwise. *)
Theorem loadTerminals_picks_a_loaded_session ts st :
  let st' := loadTerminals (Resolved ts) st in
  active_known st'
  ∧ (∀ t, find_flagged ts = Some t → id t ≠ [] →
       activeTerminalId st' = Some (id t))
  ∧ (find_flagged ts = None → ∀ t, ts !! 0 = Some t → id t ≠ [] →
       activeTerminalId st' = Some (id t) ∧ is_active t = false).
Proof.
  simpl. split_and!.
  - intros x. unfold loadTerminals, ids; simpl.
    unfold find_flagged.
    destruct (list_find (λ t, is_active t = true) ts) as [[i t]|] eqn:Hf; simpl.
    + apply list_find_Some in Hf as (Hi & _ & _).
      destruct (truthy (id t)) eqn:Ht; simpl.
      * rewrite Ht. intros [= <-].
        by apply (list_elem_of_fmap_2 id), (list_elem_of_lookup_2 _ i).
      * destruct (ts !! 0) as [t0|] eqn:H0; simpl; [|done].
        destruct (truthy (id t0)); [|done]. intros [= <-].
        by apply (list_elem_of_fmap_2 id), (list_elem_of_lookup_2 _ 0).
    + destruct (ts !! 0) as [t0|] eqn:H0; simpl; [|done].
      destruct (truthy (id t0)); [|done]. intros [= <-].
      by apply (list_elem_of_fmap_2 id), (list_elem_of_lookup_2 _ 0).
  - intros t Hflag Hid. rewrite Hflag. simpl. by destruct (id t).
  - intros Hnone t H0 Hid. rewrite Hnone, H0. simpl. split.
    + by destruct (id t).
    + unfold find_flagged in Hnone.
      destruct (list_find (λ t, is_active t = true) ts) as [[]|] eqn:Hf; [done|].
      apply list_find_None in Hf.
      apply list_elem_of_lookup_2 in H0.
      rewrite Forall_forall in Hf. specialize (Hf t H0).
      by destruct (is_active t).
Qed.

Lemma loadTerminals_picks_a_loaded_session_witness :
  let a := {| id := js "a"; title := js "A"; working_directory := js "/";
              is_active := false; output := [] |} in
  let b := {| id := js "b"; title := js "B"; working_directory := js "/";
              is_active := true; output := [] |} in
  activeTerminalId (loadTerminals (Resolved [a; b]) initial) = Some (js "b")
  ∧ activeTerminalId (loadTerminals (Resolved [a]) initial) = Some (js "a").
Proof.
  intros a b. split.
  - apply (proj1 (proj2 (loadTerminals_picks_a_loaded_session [a; b] initial)) b);
      [reflexivity | discriminate].
  - apply (proj2 (proj2 (loadTerminals_picks_a_loaded_session [a] initial))
             eq_refl a eq_refl).
    discriminate.
Defined.

End RegistryOutput.

(** ** Switching tabs *)

Section Tabs.
Import App.

Lemma findIndex_at (ts : list TerminalStore.TerminalSession) i t :
  NoDup (TerminalStore.id <$> ts) → ts !! i = Some t →
  findIndex ts (Some (TerminalStore.id t)) = Z.of_nat i.
Proof.
  intros Hnd Hi. unfold findIndex.
  destruct (list_find_elem_of
              (λ u, Some (TerminalStore.id u) = Some (TerminalStore.id t)) ts t)
    as [[j u] Hf]; [by eapply list_elem_of_lookup_2 | done |].
  rewrite Hf. apply list_find_Some in Hf as (Hj & [= Hid] & _).
  f_equal. eapply NoDup_lookup; [exact Hnd| |].
  - by rewrite list_lookup_fmap, Hj.
  - by rewrite list_lookup_fmap, Hi, Hid.
Qed.

Lemma findIndex_absent (ts : list TerminalStore.TerminalSession) a :
  (∀ t, t ∈ ts → Some (TerminalStore.id t) ≠ a) → findIndex ts a = (-1)%Z.
Proof.
  intros Hno. unfold findIndex.
  destruct (list_find _ ts) as [[j u]|] eqn:Hf; [|done].
  apply list_find_Some in Hf as (Hj & Hid & _).
  destruct (Hno u); [by eapply list_elem_of_lookup_2 | done].
Qed.

Lemma array_get_nat {A} (xs : list A) (i : nat) :
  array_get xs (Z.of_nat i) = xs !! i.
Proof.
  unfold array_get. destruct (Z.ltb_spec (Z.of_nat i) 0); [lia|].
  by rewrite Nat2Z.id.
Qed.

Lemma activate_at_nat ts (i : nat) t st :
  ts !! i = Some t →
  activate_at ts (Z.of_nat i) st
  = on_store (TerminalStore.setActiveTerminal (TerminalStore.id t)) st.
Proof. intros Hi. unfold activate_at. by rewrite array_get_nat, Hi. Qed.

(** What the next-tab key does when the render is current, ids do not
    repeat and the active terminal is the one at position [i]. *)
Lemma case_next_tab_at st i t :
  NoDup (TerminalStore.ids (terminalStore st)) →
  TerminalStore.terminals (terminalStore st) !! i = Some t →
  TerminalStore.activeTerminalId (terminalStore st) = Some (TerminalStore.id t) →
  ∃ t', TerminalStore.terminals (terminalStore st)
          !! ((i + 1) mod length (TerminalStore.terminals (terminalStore st)))
        = Some t'
        ∧ case_next_tab (render st) st
          = on_store (TerminalStore.setActiveTerminal (TerminalStore.id t')) st.
Proof.
  intros Hnd Hi Hact. unfold case_next_tab, render; simpl.
  set (ts := TerminalStore.terminals (terminalStore st)) in *.
  assert (Hlen : i < length ts) by (by eapply lookup_lt_Some).
  destruct (Nat.eqb_spec (length ts) 0); [lia|].
  rewrite Hact, (findIndex_at ts i t Hnd Hi).
  destruct (lookup_lt_is_Some_2 ts ((i + 1) mod length ts)) as [t' Ht'];
    [apply Nat.mod_upper_bound; lia|].
  exists t'. split; [done|].
  replace (Z.of_nat i + 1)%Z with (Z.of_nat (i + 1)) by lia.
  rewrite <- Nat2Z.inj_mod. by apply activate_at_nat.
Qed.

Lemma case_prev_tab_at st i t :
  NoDup (TerminalStore.ids (terminalStore st)) →
  TerminalStore.terminals (terminalStore st) !! i = Some t →
  TerminalStore.activeTerminalId (terminalStore st) = Some (TerminalStore.id t) →
  ∃ t', TerminalStore.terminals (terminalStore st)
          !! (if decide (i = 0)
              then length (TerminalStore.terminals (terminalStore st)) - 1
              else i - 1)
        = Some t'
        ∧ case_prev_tab (render st) st
          = on_store (TerminalStore.setActiveTerminal (TerminalStore.id t')) st.
Proof.
  intros Hnd Hi Hact. unfold case_prev_tab, render; simpl.
  set (ts := TerminalStore.terminals (terminalStore st)) in *.
  assert (Hlen : i < length ts) by (by eapply lookup_lt_Some).
  rewrite Hact, (findIndex_at ts i t Hnd Hi).
  destruct (decide (i = 0)) as [->|Hi0].
  - simpl.
    destruct (lookup_lt_is_Some_2 ts (length ts - 1)) as [t' Ht']; [lia|].
    exists t'. split; [done|].
    replace (Z.of_nat (length ts) - 1)%Z with (Z.of_nat (length ts - 1)) by lia.
    by apply activate_at_nat.
  - destruct (Z.eqb_spec (Z.of_nat i) 0); [lia|].
    destruct (lookup_lt_is_Some_2 ts (i - 1)) as [t' Ht']; [lia|].
    exists t'. split; [done|].
    replace (Z.of_nat i - 1)%Z with (Z.of_nat (i - 1)) by lia.
    by apply activate_at_nat.
Qed.

Lemma lookup_setActiveTerminal x store i t :
  TerminalStore.terminals store !! i = Some t →
  ∃ t', TerminalStore.terminals (TerminalStore.setActiveTerminal x store) !! i
        = Some t' ∧ TerminalStore.id t' = TerminalStore.id t.
Proof.
  intros Hi. simpl. rewrite list_lookup_fmap, Hi. simpl. by eexists.
Qed.

(** Next tab and previous tab undo each other and wrap around: with ids
    that do not repeat and the active terminal at position [i] of [n],
    cmd+shift+] activates the terminal at position [(i + 1) mod n], and
    cmd+shift+[ pressed after that activates the one at position [i]
    again. Each key is handled by the callback of the current render. *)
Theorem next_tab_then_prev_tab now now' st i t :
  NoDup (TerminalStore.ids (terminalStore st)) →
  TerminalStore.terminals (terminalStore st) !! i = Some t →
  TerminalStore.activeTerminalId (terminalStore st) = Some (TerminalStore.id t) →
  let n := length (TerminalStore.terminals (terminalStore st)) in
  let st1 := handleHotkey (render st) now Cmd_Shift_BracketRight st in
  let st2 := handleHotkey (render st1) now' Cmd_Shift_BracketLeft st1 in
  (∃ t', TerminalStore.terminals (terminalStore st) !! ((i + 1) mod n) = Some t'
         ∧ TerminalStore.activeTerminalId (terminalStore st1)
           = Some (TerminalStore.id t'))
  ∧ TerminalStore.activeTerminalId (terminalStore st2) = Some (TerminalStore.id t)
  ∧ TerminalStore.ids (terminalStore st2) = TerminalStore.ids (terminalStore st).
Proof.
  intros Hnd Hi Hact n st1 st2. subst st1 st2. simpl.
  assert (Hlen : i < n) by (by eapply lookup_lt_Some).
  destruct (case_next_tab_at st i t Hnd Hi Hact) as (t' & Ht' & ->).
  fold n in Ht'.
  split; [by exists t'|].
  set (st1 := on_store (TerminalStore.setActiveTerminal (TerminalStore.id t')) st).
  assert (Hids1 : TerminalStore.ids (terminalStore st1)
                  = TerminalStore.ids (terminalStore st))
    by apply ids_setActiveTerminal.
  destruct (lookup_setActiveTerminal (TerminalStore.id t') (terminalStore st) _ _ Ht')
    as (u' & Hu' & Hidu').
  assert (Hnd1 : NoDup (TerminalStore.ids (terminalStore st1))) by (by rewrite Hids1).
  assert (Hact1 : TerminalStore.activeTerminalId (terminalStore st1)
                  = Some (TerminalStore.id u')) by (simpl; by rewrite Hidu').
  destruct (case_prev_tab_at st1 _ u' Hnd1 Hu' Hact1) as (u & Hu & ->).
  assert (Hn1 : length (TerminalStore.terminals (terminalStore st1)) = n)
    by (simpl; by rewrite length_fmap).
  rewrite Hn1 in Hu.
  assert (Hback : (if decide ((i + 1) mod n = 0) then n - 1 else (i + 1) mod n - 1) = i).
  { destruct (decide (i + 1 = n)) as [Hlast|Hnot].
    - rewrite Hlast, Nat.Div0.mod_same. rewrite decide_True by done. lia.
    - rewrite Nat.mod_small by lia. rewrite decide_False by lia. lia. }
  rewrite Hback in Hu.
  destruct (lookup_setActiveTerminal (TerminalStore.id t') (terminalStore st) _ _ Hi)
    as (w & Hw & Hidw).
  assert (u = w) as -> by (simpl in Hu, Hw; congruence).
  split.
  - simpl. by rewrite Hidw.
  - simpl. etransitivity; [apply ids_setActiveTerminal|]. exact Hids1.
Qed.

Lemma next_tab_then_prev_tab_witness :
  let a := {| TerminalStore.id := js "a"; TerminalStore.title := js "A";
              TerminalStore.working_directory := js "/";
              TerminalStore.is_active := false; TerminalStore.output := [] |} in
  let b := {| TerminalStore.id := js "b"; TerminalStore.title := js "B";
              TerminalStore.working_directory := js "/";
              TerminalStore.is_active := true; TerminalStore.output := [] |} in
  let st := {| isVisible := true; isCommandPaletteOpen := false;
               terminalStore :=
                 {| TerminalStore.terminals := [a; b];
                    TerminalStore.activeTerminalId := Some (js "b");
                    TerminalStore.isLoading := false;
                    TerminalStore.error := None |} |} in
  let st1 := handleHotkey (render st) 0 Cmd_Shift_BracketRight st in
  let st2 := handleHotkey (render st1) 0 Cmd_Shift_BracketLeft st1 in
  TerminalStore.activeTerminalId (terminalStore st1) = Some (js "a")
  ∧ TerminalStore.activeTerminalId (terminalStore st2) = Some (js "b").
Proof.
  intros a b st st1 st2.
  assert (Hnd : NoDup (TerminalStore.ids (terminalStore st)))
    by (apply (bool_decide_eq_true_1 (NoDup (TerminalStore.ids (terminalStore st))));
        reflexivity).
  destruct (next_tab_then_prev_tab 0 0 st 1 b Hnd eq_refl eq_refl)
    as ((t' & Ht' & Hnext) & Hback & _).
  simpl in Ht'. injection Ht' as <-.
  split; [exact Hnext | exact Hback].
Defined.

(** The two keys are not symmetric at the edges. With no terminal at all
    neither does anything. With terminals of which none has the active id
    (no active id, or a dangling one), next tab activates the first
    terminal while previous tab does nothing. *)
Theorem tab_keys_without_active_terminal now st :
  (∀ t, t ∈ TerminalStore.terminals (terminalStore st) →
        Some (TerminalStore.id t)
        ≠ TerminalStore.activeTerminalId (terminalStore st)) →
  handleHotkey (render st) now Cmd_Shift_BracketLeft st = st
  ∧ match TerminalStore.terminals (terminalStore st) with
    | [] => handleHotkey (render st) now Cmd_Shift_BracketRight st = st
    | t :: _ =>
        handleHotkey (render st) now Cmd_Shift_BracketRight st
        = on_store (TerminalStore.setActiveTerminal (TerminalStore.id t)) st
    end.
Proof.
  intros Hno. simpl. unfold case_prev_tab, case_next_tab, render; simpl.
  rewrite (findIndex_absent _ _ Hno). split.
  - done.
  - destruct (TerminalStore.terminals (terminalStore st)) as [|t ts]; [done|].
    simpl. rewrite Z.mod_0_l by lia. done.
Qed.

Lemma tab_keys_without_active_terminal_witness :
  let a := {| TerminalStore.id := js "a"; TerminalStore.title := js "A";
              TerminalStore.working_directory := js "/";
              TerminalStore.is_active := false; TerminalStore.output := [] |} in
  let st := {| isVisible := true; isCommandPaletteOpen := false;
               terminalStore :=
                 {| TerminalStore.terminals := [a];
                    TerminalStore.activeTerminalId := None;
                    TerminalStore.isLoading := false;
                    TerminalStore.error := None |} |} in
  handleHotkey (render st) 0 Cmd_Shift_BracketLeft st = st
  ∧ TerminalStore.activeTerminalId
      (terminalStore (handleHotkey (render st) 0 Cmd_Shift_BracketRight st))
    = Some (js "a").
Proof.
  intros a st.
  destruct (tab_keys_without_active_terminal 0 st) as [Hprev Hnext].
  - intros t _. discriminate.
  - split; [exact Hprev|].
    exact (f_equal (λ s, TerminalStore.activeTerminalId (terminalStore s)) Hnext).
Defined.

(** *** The listener of hotkey events *)

Lemma on_hotkey_triggered_cases now callback st :
  on_hotkey_triggered now callback st = st
  ∨ on_hotkey_triggered now callback st = setIsVisible true st
  ∨ on_hotkey_triggered now callback st = setIsVisible false st
  ∨ on_hotkey_triggered now callback st
    = on_store (TerminalStore.createTerminal now None None) st.
Proof.
  unfold on_hotkey_triggered, handleHotkeyCallback.
  repeat (destruct (callback_is callback _)); auto.
Qed.

(** Hotkey events reach a callback that still sees the first render, in
    which the surface is hidden and there is no terminal. So toggle_window
    always shows the surface, also when it is visible; close_tab, next_tab
    and prev_tab do nothing; and after any sequence of hotkey events every
    session the registry had is still there, unchanged and in order. *)
Theorem hotkey_events_see_the_first_render events now st :
  isVisible (on_hotkey_triggered now (js "toggle_window") st) = true
  ∧ on_hotkey_triggered now (js "close_tab") st = st
  ∧ on_hotkey_triggered now (js "next_tab") st = st
  ∧ on_hotkey_triggered now (js "prev_tab") st = st
  ∧ TerminalStore.terminals (terminalStore st)
      `prefix_of`
    TerminalStore.terminals (terminalStore (on_hotkeys_triggered events st)).
Proof.
  split_and!; try reflexivity.
  unfold on_hotkeys_triggered. revert st.
  induction events as [|[now' callback] events IH]; intros st; simpl; [done|].
  etransitivity; [|apply IH]. simpl.
  destruct (on_hotkey_triggered_cases now' callback st) as [-> | [-> | [-> | ->]]];
    simpl; try done.
  by apply prefix_app_r.
Qed.

End Tabs.

(** ** The command palette *)

Section Palette.
Import CommandPalette.










(** Every command of the palette calls [onCommand] with an empty argument
    list. Handled by the root component, none of them reaches the stores of
    themes and providers (the cases that would need [args[0]]), and only
    terminal.new and terminal.close change the state at all. *)
Theorem palette_commands_reach_only_the_terminals c v now st :
  c ∈ allCommands →
  snd (action c) = []
  ∧ snd (App.handleCommandPaletteCommand v now (fst (action c)) (snd (action c)) st)
    = []
  ∧ (fst (action c) ≠ js "terminal.new" → fst (action c) ≠ js "terminal.close" →
     fst (App.handleCommandPaletteCommand v now (fst (action c)) (snd (action c)) st)
     = st).
Proof.
  revert c. apply Forall_forall. unfold allCommands.
  repeat (apply Forall_cons; split;
          [split_and!; [reflexivity | reflexivity
                       | first [ intros _ _; reflexivity
                               | intros H; by destruct H
                               | intros _ H; by destruct H ]]|]).
  apply Forall_nil_2.
Qed.

Lemma palette_commands_reach_only_the_terminals_witness :
  let c := command "config.theme" "Change Theme"
             "Change the application theme" "Settings"
             [js "theme"; js "color"; js "appearance"; js "config"] in
  let st := {| App.isVisible := true; App.isCommandPaletteOpen := true;
               App.terminalStore := TerminalStore.initial |} in
  App.handleCommandPaletteCommand (App.render st) 0
    (fst (action c)) (snd (action c)) st
  = (st, []).
Proof.
  intros c st.
  assert (Hin : c ∈ allCommands)
    by (apply list_elem_of_lookup; exists 32; reflexivity).
  destruct (palette_commands_reach_only_the_terminals c (App.render st) 0 st Hin)
    as (_ & Hcalls & Hsame).
  destruct (App.handleCommandPaletteCommand (App.render st) 0
              (fst (action c)) (snd (action c)) st)
    as [st' calls] eqn:Hrun.
  simpl in Hcalls, Hsame. rewrite Hcalls, Hsame; [done|discriminate..].
Defined.

End Palette.

(** ** Providers, configuration and themes *)

Section ProvidersMore.
Import AppStore.

(** After the providers are loaded, the provider named as the default one
    is the first provider of the list marked [default], provided provider
    ids do not repeat and that provider has an id; with no provider
    marked, there is no default. *)
Theorem loaded_default_is_the_first_marked ps st :
  NoDup (id <$> ps) →
  (∀ p, find_default ps = Some p → id p ≠ [] →
     defaultProviderInfo (loadProviders (Resolved ps) st) = Some p)
  ∧ (find_default ps = None →
     defaultProvider (loadProviders (Resolved ps) st) = None
     ∧ defaultProviderInfo (loadProviders (Resolved ps) st) = None).
Proof.
  intros Hnd. split.
  - intros p Hp Hid. unfold defaultProviderInfo; simpl. rewrite Hp; simpl.
    destruct (id p) as [|c s] eqn:Hidp; [done|]. simpl. rewrite <- Hidp.
    unfold find_default in Hp.
    destruct (list_find (λ q, default q = true) ps) as [[i p']|] eqn:Hf; [|done].
    simpl in Hp. injection Hp as ->.
    apply list_find_Some in Hf as (Hi & _ & _).
    destruct (list_find_elem_of (λ q, id q = id p) ps p) as [[j q] Hq];
      [by eapply list_elem_of_lookup_2 | done |].
    rewrite Hq. simpl. f_equal.
    apply list_find_Some in Hq as (Hj & Hidq & _).
    assert (j = i) as ->.
    { eapply NoDup_lookup; [exact Hnd| |].
      - by rewrite list_lookup_fmap, Hj.
      - by rewrite list_lookup_fmap, Hi, Hidq. }
    congruence.
  - intros Hnone. unfold defaultProviderInfo; simpl. by rewrite Hnone.
Qed.

Lemma loaded_default_is_the_first_marked_witness :
  let p1 := {| id := js "openai"; name := js "OpenAI"; provider_type := js "openai";
               base_url := None; model := None; api_key := None;
               default := false; enabled := true; config := [] |} in
  let p2 := {| id := js "ollama"; name := js "Ollama"; provider_type := js "ollama";
               base_url := None; model := None; api_key := None;
               default := true; enabled := true; config := [] |} in
  defaultProviderInfo (loadProviders (Resolved [p1; p2]) initial) = Some p2.
Proof.
  intros p1 p2.
  assert (Hnd : NoDup (id <$> [p1; p2]))
    by (apply (bool_decide_eq_true_1 (NoDup (id <$> [p1; p2]))); reflexivity).
  apply (proj1 (loaded_default_is_the_first_marked [p1; p2] initial Hnd) p2);
    [reflexivity | discriminate].
Defined.

End ProvidersMore.

Section ConfigMore.
Import ConfigStore.

(** Loading keeps the theme in use and the configuration together: after
    loadConfig, however the native call ends, there is a configuration and
    the current theme is the one it names (the default configuration and
    its theme when the call is rejected); importConfig and loadThemes keep
    the two together when they were. *)
Theorem loading_keeps_theme_in_sync r r' reload rt st :
  theme_in_sync (loadConfig r st)
  ∧ (theme_in_sync st →
     theme_in_sync (importConfig r' reload st) ∧ theme_in_sync (loadThemes rt st)).
Proof.
  assert (Hload : ∀ r st, theme_in_sync (loadConfig r st)).
  { intros [c|reason] s; eexists; split; reflexivity. }
  split; [apply Hload|]. intros Hsync. split.
  - destruct r' as [[]|reason]; simpl; [apply Hload|done].
  - by destruct rt.
Qed.

Lemma loading_keeps_theme_in_sync_witness :
  theme_in_sync (importConfig (Rejected (js "no file")) (Rejected (js "x")) initial).
Proof.
  apply (proj2 (loading_keeps_theme_in_sync (Rejected (js "x"))
                  (Rejected (js "no file")) (Rejected (js "x")) (Rejected (js "x"))
                  initial)).
  eexists. split; reflexivity.
Defined.




End ConfigMore.
